(** * Documentation-coverage analyzer (analyze_docs.py): model and properties

    The script walks a directory tree, detects declaration lines of Swift
    files with one regular expression, looks back ten lines for the marker
    [///], and prints per-file and overall coverage.

    Text is modelled as Python has it: a [str] is a sequence of Unicode code
    points, here [list N].  Integers are Python's unbounded [int], here [Z].
    The floats of the percentage are binary64 values, computed with the
    IEEE 754 operations of [SpecFloat]. *)

From Stdlib Require Import Rbase Rfunctions Lra.
From Stdlib Require Import ZArith NArith List Bool Lia String Ascii Permutation Sorted.
From Stdlib Require Import Floats.SpecFloat.
Import ListNotations.

Local Open Scope Z_scope.

(** ** Text *)

Definition char := N.
Definition text := list char.

(** An ASCII literal of the source as a sequence of code points. *)
Definition str (s : string) : text :=
  List.map N_of_ascii (list_ascii_of_string s).

Definition LF : char := 10%N.

(** ** Regular expressions

    The fragment of Python's [re] syntax that the pattern of line 10 uses:
    literals, the classes [\s] and [\w], concatenation, alternation, [?],
    [*] and [+]. *)

Inductive regex : Type :=
| Empty : regex
| Eps : regex
| Class : (char -> bool) -> regex
| Seq : regex -> regex -> regex
| Alt : regex -> regex -> regex
| Star : regex -> regex.

Definition Chr (c : char) : regex := Class (N.eqb c).
Definition Opt (r : regex) : regex := Alt r Eps.
Definition Plus (r : regex) : regex := Seq r (Star r).

Fixpoint Lit (w : text) : regex :=
  match w with
  | [] => Eps
  | c :: w' => Seq (Chr c) (Lit w')
  end.

(** The words of a regular expression. *)
Inductive Matches : regex -> text -> Prop :=
| MEps : Matches Eps []
| MClass : forall p c, p c = true -> Matches (Class p) [c]
| MSeq : forall r1 r2 s1 s2,
    Matches r1 s1 -> Matches r2 s2 -> Matches (Seq r1 r2) (s1 ++ s2)
| MAltL : forall r1 r2 s, Matches r1 s -> Matches (Alt r1 r2) s
| MAltR : forall r1 r2 s, Matches r2 s -> Matches (Alt r1 r2) s
| MStarNil : forall r, Matches (Star r) []
| MStarApp : forall r s1 s2,
    Matches r s1 -> Matches (Star r) s2 -> Matches (Star r) (s1 ++ s2).

Fixpoint nullable (r : regex) : bool :=
  match r with
  | Empty => false
  | Eps => true
  | Class _ => false
  | Seq r1 r2 => nullable r1 && nullable r2
  | Alt r1 r2 => nullable r1 || nullable r2
  | Star _ => true
  end.

Fixpoint deriv (c : char) (r : regex) : regex :=
  match r with
  | Empty => Empty
  | Eps => Empty
  | Class p => if p c then Eps else Empty
  | Seq r1 r2 =>
      if nullable r1 then Alt (Seq (deriv c r1) r2) (deriv c r2)
      else Seq (deriv c r1) r2
  | Alt r1 r2 => Alt (deriv c r1) (deriv c r2)
  | Star r1 => Seq (deriv c r1) (Star r1)
  end.

(** [re.match(r, s)] succeeds when some prefix of [s], taken from position 0,
    is a word of [r] (the pattern has no back-reference, look-around or
    possessive operator, so the backtracking search finds a matching prefix
    whenever one exists).  Only the truth value of the result is used by the
    script. *)
Fixpoint re_match (r : regex) (s : text) : bool :=
  nullable r ||
  match s with
  | [] => false
  | c :: s' => re_match (deriv c r) s'
  end.

(** ** Character classes of Python 3 [str] patterns *)

(** [\s]: the code points for which [str.isspace] holds. *)
Definition is_space (c : char) : bool :=
  (((9 <=? c) && (c <=? 13)) || ((28 <=? c) && (c <=? 32)) ||
   (c =? 133) || (c =? 160) || (c =? 5760) ||
   ((8192 <=? c) && (c <=? 8202)) ||
   (c =? 8232) || (c =? 8233) || (c =? 8239) || (c =? 8287) ||
   (c =? 12288))%N.

Definition is_ascii_alnum (c : char) : bool :=
  (((48 <=? c) && (c <=? 57)) || ((65 <=? c) && (c <=? 90)) ||
   ((97 <=? c) && (c <=? 122)))%N.

(** ** Lists and strings as Python indexes them *)

Fixpoint enumerate_from {A : Type} (i : Z) (l : list A) : list (Z * A) :=
  match l with
  | [] => []
  | x :: l' => (i, x) :: enumerate_from (i + 1) l'
  end.

Definition enumerate {A : Type} (l : list A) : list (Z * A) := enumerate_from 0 l.

(** A slice bound as Python normalises it: a negative bound counts from the
    end, and every bound is clipped to [0, len]. *)
Definition slice_bound (len i : Z) : Z :=
  if i <? 0 then Z.max 0 (i + len) else Z.min i len.

(** [l[a:b]] *)
Definition slice {A : Type} (l : list A) (a b : Z) : list A :=
  let len := Z.of_nat (List.length l) in
  let lo := slice_bound len a in
  let hi := slice_bound len b in
  firstn (Z.to_nat (hi - lo)) (skipn (Z.to_nat lo) l).

(** [s.startswith(p)] *)
Fixpoint starts_with (p s : text) : bool :=
  match p, s with
  | [], _ => true
  | _ :: _, [] => false
  | a :: p', b :: s' => (a =? b)%N && starts_with p' s'
  end.

(** [sub in s] *)
Fixpoint contains (sub s : text) : bool :=
  starts_with sub s ||
  match s with
  | [] => false
  | _ :: s' => contains sub s'
  end.

(** [f.readlines()] on the decoded text of a file: the text is cut after
    every line feed, and each line keeps its line feed. *)
Fixpoint readlines (s : text) : list text :=
  match s with
  | [] => []
  | c :: s' =>
      if (c =? LF)%N then [c] :: readlines s'
      else match readlines s' with
           | [] => [[c]]
           | l :: ls => (c :: l) :: ls
           end
  end.

(** [a == b] on two strings. *)
Fixpoint text_eqb (a b : text) : bool :=
  match a, b with
  | [], [] => true
  | x :: a', y :: b' => (x =? y)%N && text_eqb a' b'
  | _, _ => false
  end.

(** [s.endswith(suffix)] *)
Definition endswith (s suffix : text) : bool :=
  (List.length suffix <=? List.length s)%nat &&
  text_eqb (skipn (List.length s - List.length suffix) s) suffix.

(** ** Paths (posixpath) *)

Definition SEP : char := 47%N.

(** [os.path.join(a, b)] *)
Definition path_join (a b : text) : text :=
  if starts_with [SEP] b then b
  else if (match a with [] => true | _ => false end) || endswith a [SEP]
       then a ++ b
       else a ++ [SEP] ++ b.

(** [s.rfind(c)], counting positions from [i] at the head of [s]. *)
Fixpoint rfind_from (c : char) (s : text) (i : Z) : Z :=
  match s with
  | [] => -1
  | x :: s' =>
      let r := rfind_from c s' (i + 1) in
      if 0 <=? r then r else if (x =? c)%N then i else -1
  end.

Definition rfind (c : char) (s : text) : Z := rfind_from c s 0.

(** [os.path.basename(p)]: [i = p.rfind('/') + 1; return p[i:]] *)
Definition basename (p : text) : text :=
  let i := rfind SEP p + 1 in
  slice p i (Z.of_nat (List.length p)).

(** ** Numbers and their formatting *)

(** [str(n)] of an [int]. *)
Fixpoint uint_text (d : Decimal.uint) : text :=
  match d with
  | Decimal.Nil => []
  | Decimal.D0 d' => 48%N :: uint_text d'
  | Decimal.D1 d' => 49%N :: uint_text d'
  | Decimal.D2 d' => 50%N :: uint_text d'
  | Decimal.D3 d' => 51%N :: uint_text d'
  | Decimal.D4 d' => 52%N :: uint_text d'
  | Decimal.D5 d' => 53%N :: uint_text d'
  | Decimal.D6 d' => 54%N :: uint_text d'
  | Decimal.D7 d' => 55%N :: uint_text d'
  | Decimal.D8 d' => 56%N :: uint_text d'
  | Decimal.D9 d' => 57%N :: uint_text d'
  end.

Definition int_text (z : Z) : text :=
  match Z.to_int z with
  | Decimal.Pos d => uint_text d
  | Decimal.Neg d => 45%N :: uint_text d
  end.

(** binary64: 53 bits of precision, exponents below 1024. *)
Definition float := spec_float.
Definition fprec : Z := 53.
Definition femax : Z := 1024.

(** [float(n)]: the integer rounded to the nearest double, ties to even. *)
Definition float_of_int (n : Z) : float := binary_normalize fprec femax n 0 false.

(** An integer as an exact operand of a floating-point operation. *)
Definition exact_int (n : Z) : float :=
  match n with
  | Z0 => S754_zero false
  | Zpos p => S754_finite false p 0
  | Zneg p => S754_finite true p 0
  end.

(** ** The real value of a double *)

(** [2^e] and [m * 2^e] as real numbers. *)
Definition pow2 (e : Z) : R := powerRZ 2 e.
Definition F2R (m e : Z) : R := (IZR m * pow2 e)%R.

(** The double with mantissa [mo] at exponent [eo]: a zero when [mo] is. *)
Definition rounded (sx : bool) (mo eo : Z) : float :=
  match mo with
  | Zpos p => S754_finite sx p eo
  | _ => S754_zero sx
  end.

Inductive exn : Type := ZeroDivisionError | OverflowError.

Inductive result (A : Type) : Type :=
| Ok : A -> result A
| Raise : exn -> result A.
Arguments Ok {A} _.
Arguments Raise {A} _.

Definition bind {A B : Type} (m : result A) (k : A -> result B) : result B :=
  match m with
  | Ok a => k a
  | Raise e => Raise e
  end.

Notation "x <- m ;; k" := (bind m (fun x => k))
  (at level 61, m at next level, right associativity).

(** [a / b] on two [int]s: [ZeroDivisionError] when [b] is zero, otherwise
    the quotient correctly rounded to a double, and [OverflowError] when that
    is beyond the range of doubles. *)
Definition int_truediv (a b : Z) : result float :=
  if b =? 0 then Raise ZeroDivisionError
  else match SFdiv fprec femax (exact_int a) (exact_int b) with
       | S754_infinity _ => Raise OverflowError
       | q => Ok q
       end.

(** The values that [coverage] takes: a [float] product, or the [int] 0. *)
Inductive number : Type :=
| PyInt : Z -> number
| PyFloat : float -> number.

(** [n / d] rounded to the nearest integer, ties to even ([d] positive). *)
Definition round_half_even (n d : Z) : Z :=
  let q := n / d in
  let r := n mod d in
  match 2 * r ?= d with
  | Lt => q
  | Gt => q + 1
  | Eq => if Z.even q then q else q + 1
  end.

(** The value [m * 2^e] in tenths, correctly rounded. *)
Definition tenths (m : positive) (e : Z) : Z :=
  match e with
  | Zneg p => round_half_even (Zpos m * 10) (2 ^ Zpos p)
  | _ => Zpos m * 10 * 2 ^ e
  end.

Definition sign_text (s : bool) : text := if s then [45%N] else [].

(** [format(x, '.1f')] of a [float]: the correctly rounded decimal with one
    digit after the point. *)
Definition float_format_1f (x : float) : text :=
  match x with
  | S754_zero s => sign_text s ++ str "0.0"
  | S754_finite s m e =>
      let t := tenths m e in
      sign_text s ++ int_text (t / 10) ++ str "." ++ int_text (t mod 10)
  | S754_infinity s => sign_text s ++ str "inf"
  | S754_nan => str "nan"
  end.

(** [format(v, '.1f')]: an [int] is converted to [float] first. *)
Definition format_1f (v : number) : text :=
  match v with
  | PyInt n => float_format_1f (float_of_int n)
  | PyFloat x => float_format_1f x
  end.

(** Lines 34 and 37, the same expression at both places:
    [(docs / funcs * 100) if funcs > 0 else 0]. *)
Definition coverage (docs funcs : Z) : result number :=
  if funcs >? 0 then
    q <- int_truediv docs funcs ;;
    Ok (PyFloat (SFmul fprec femax q (float_of_int 100)))
  else Ok (PyInt 0).

(** ** The directory tree *)

(** A directory: its files (name and decoded text) and its subdirectories,
    each list in the order in which the directory is listed. *)
#[warnings="-register-all"]
Inductive tree : Type :=
| Dir : list (text * text) -> list (text * tree) -> tree.

(** [os.walk(top)], top-down: one triple [(root, dirs, files)] per directory,
    a directory before its subdirectories.  A file is carried with the text
    that opening [os.path.join(root, file)] gives. *)
Fixpoint walk (top : text) (t : tree) : list (text * list text * list (text * text)) :=
  match t with
  | Dir files subdirs =>
      (top, List.map fst subdirs, files)
      :: flat_map (fun d => walk (path_join top (fst d)) (snd d)) subdirs
  end.

(** The files of a tree, at any depth. *)
Inductive InTree (f : text * text) : tree -> Prop :=
| InTree_here : forall files subdirs,
    In f files -> InTree f (Dir files subdirs)
| InTree_below : forall files subdirs name sub,
    In (name, sub) subdirs -> InTree f sub -> InTree f (Dir files subdirs).

(** A table with no alphanumeric code point above ASCII: enough to run the
    analyzer on ASCII text, where the table is never consulted. *)
Definition ascii_only : char -> bool := fun _ => false.

(** A small source tree: two Swift files, one of them in a subdirectory, and a
    file that is not scanned. *)
Definition sample_tree : tree :=
  Dir [(str "A.swift",
        str "/// doc" ++ [LF] ++ str "func foo() {}" ++ [LF] ++
        str "init(x: Int) {" ++ [LF]);
       (str "notes.txt", str "func x()")]
      [(str "Sub",
        Dir [(str "B.swift",
              str "func a()" ++ [LF] ++ str "  func b()" ++ [LF] ++
              str "//" ++ [LF] ++ str "private func c()")] [])].

(** What [os.walk] yields for the same Swift files without [notes.txt]. *)
Definition sample_walk_swift_only : list (text * list text * list (text * text)) :=
  [(str "/Users/cybou/Documents/SwiftS3/Sources/SwiftS3", [str "Sub"],
    [(str "A.swift",
      str "/// doc" ++ [LF] ++ str "func foo() {}" ++ [LF] ++
      str "init(x: Int) {" ++ [LF])]);
   (str "/Users/cybou/Documents/SwiftS3/Sources/SwiftS3/Sub", [],
    [(str "B.swift",
      str "func a()" ++ [LF] ++ str "  func b()" ++ [LF] ++
      str "//" ++ [LF] ++ str "private func c()")])].

(** A tree without any Swift file. *)
Definition tree_without_swift : tree :=
  Dir [(str "README.md", str "func documented() {}")]
      [(str "Resources", Dir [(str "notes.txt", str "/// init(")] [])].

Section Analyzer.

(** The alphanumeric code points above ASCII, a table of the Unicode
    database of the running interpreter ([str.isalnum]). *)
Variable unicode_alnum : char -> bool.

(** [\w]: alphanumeric, or the underscore. *)
Definition is_word (c : char) : bool :=
  (is_ascii_alnum c || (c =? 95) || ((128 <=? c) && unicode_alnum c))%N.

Definition ws : regex := Class is_space.
Definition wd : regex := Class is_word.

(** Line 10:
    [^\s*(public\s+|private\s+|internal\s+|fileprivate\s+)?(static\s+)?(func\s+\w+|init\s*\()].
    The leading [^] holds at position 0, where [re.match] starts. *)
Definition decl_pattern : regex :=
  Seq (Star ws)
   (Seq (Opt (Alt (Seq (Lit (str "public")) (Plus ws))
             (Alt (Seq (Lit (str "private")) (Plus ws))
             (Alt (Seq (Lit (str "internal")) (Plus ws))
                  (Seq (Lit (str "fileprivate")) (Plus ws))))))
   (Seq (Opt (Seq (Lit (str "static")) (Plus ws)))
        (Alt (Seq (Lit (str "func")) (Seq (Plus ws) (Plus wd)))
             (Seq (Lit (str "init")) (Seq (Star ws) (Chr 40%N)))))).

Definition is_declaration (line : text) : bool := re_match decl_pattern line.

(** ** analyze_file *)

Definition doc_marker : text := str "///".

(** Lines 8-11: the indices of the lines that the pattern matches. *)
Definition func_lines (lines : list text) : list Z :=
  fold_left
    (fun acc p => if is_declaration (snd p) then acc ++ [fst p] else acc)
    (enumerate lines) [].

(** Lines 17-18: [prev_lines]. *)
Definition prev_lines (lines : list text) (line_num : Z) : list text :=
  let start := Z.max 0 (line_num - 10) in
  slice lines start line_num.

(** Line 19: [any('///' in line for line in prev_lines)]. *)
Definition has_doc (lines : list text) (line_num : Z) : bool :=
  existsb (contains doc_marker) (prev_lines lines line_num).

(** Lines 14-20: the loop over [func_lines]. *)
Definition count_documented (lines : list text) (fl : list Z) : Z :=
  fold_left
    (fun documented line_num =>
       if has_doc lines line_num then documented + 1 else documented)
    fl 0.

(** Lines 8-22, on the list that [readlines] returned. *)
Definition analyze_lines (lines : list text) : Z * Z :=
  let fl := func_lines lines in
  let total := Z.of_nat (List.length fl) in
  let documented := count_documented lines fl in
  (total, documented).

(** [analyze_file(filepath)], given the text that [open(filepath, 'r')]
    delivers for that path. *)
Definition analyze_file (content : text) : Z * Z :=
  analyze_lines (readlines content).

(** ** The aggregator (lines 24-38) *)

(** The module-level variables and what was written to standard output. *)
Record state : Type := mkState {
  total_funcs : Z;
  total_documented : Z;
  stdout : text
}.

Definition initial : state := mkState 0 0 [].

(** [print(s)] writes [s] and a line feed. *)
Definition print (out s : text) : text := out ++ s ++ [LF].

(** The f-string of lines 35 and 38: [{label}: {docs}/{funcs} ({coverage:.1f}%)]. *)
Definition report (label : text) (docs funcs : Z) (cov : number) : text :=
  label ++ str ": " ++ int_text docs ++ str "/" ++ int_text funcs
        ++ str " (" ++ format_1f cov ++ str "%)".

Definition swift_ext : text := str ".swift".

(** Lines 29-35: the body of the inner loop, for one directory entry. *)
Definition visit_file (root : text) (st : state) (f : text * text) : result state :=
  let (file, content) := f in
  if endswith file swift_ext then
    let filepath := path_join root file in
    let (funcs, docs) := analyze_file content in
    let total_funcs' := total_funcs st + funcs in
    let total_documented' := total_documented st + docs in
    cov <- coverage docs funcs ;;
    Ok (mkState total_funcs' total_documented'
          (print (stdout st) (report (basename filepath) docs funcs cov)))
  else Ok st.

(** A loop whose body may raise. *)
Fixpoint for_each {A : Type} (body : state -> A -> result state)
         (l : list A) (st : state) : result state :=
  match l with
  | [] => Ok st
  | x :: l' => st' <- body st x ;; for_each body l' st'
  end.

(** Lines 27-35. *)
Definition visit_dir (st : state) (d : text * list text * list (text * text)) : result state :=
  let '(root, _, files) := d in
  for_each (visit_file root) files st.

(** Lines 37-38. *)
Definition print_overall (st : state) : result state :=
  cov <- coverage (total_documented st) (total_funcs st) ;;
  Ok (mkState (total_funcs st) (total_documented st)
        (print (stdout st)
           (report (LF :: str "Overall") (total_documented st) (total_funcs st) cov))).

(** The script from line 24 on, over the triples that [os.walk] yields. *)
Definition run (walked : list (text * list text * list (text * text))) : result state :=
  st <- for_each visit_dir walked initial ;;
  print_overall st.

Definition ROOT : text := str "/Users/cybou/Documents/SwiftS3/Sources/SwiftS3".

(** What [os.walk(ROOT)] yields.  [fs] is the directory found at [ROOT]; when
    there is none, [os.walk] yields nothing (its [onerror] is left at
    [None]). *)
Definition scanned (fs : option tree) : list (text * list text * list (text * text)) :=
  match fs with
  | Some t => walk ROOT t
  | None => []
  end.

(** The whole program. *)
Definition main (fs : option tree) : result state := run (scanned fs).

(** ** The run, file by file *)

(** The directory entries in the order in which the two loops reach them,
    each with the [root] of its directory. *)
Definition entries (walked : list (text * list text * list (text * text)))
  : list (text * (text * text)) :=
  flat_map (fun d => let '(root, _, files) := d in List.map (pair root) files) walked.

Definition visit_entry (st : state) (e : text * (text * text)) : result state :=
  visit_file (fst e) st (snd e).

(** The entries that line 29 lets through. *)
Definition qualifies (e : text * (text * text)) : bool :=
  endswith (fst (snd e)) swift_ext.

Definition entry_counts (e : text * (text * text)) : Z * Z :=
  analyze_file (snd (snd e)).

Definition sum_funcs (es : list (text * (text * text))) : Z :=
  fold_right Z.add 0 (List.map (fun e => fst (entry_counts e)) es).

Definition sum_docs (es : list (text * (text * text))) : Z :=
  fold_right Z.add 0 (List.map (fun e => snd (entry_counts e)) es).

(** The percentage as it is printed. *)
Definition percentage (docs funcs : Z) : text :=
  match coverage docs funcs with
  | Ok v => format_1f v
  | Raise _ => []
  end.

(** One printed line: [<label>: <documented>/<total> (<percentage>%)]. *)
Definition report_line (label : text) (docs funcs : Z) : text :=
  label ++ str ": " ++ int_text docs ++ str "/" ++ int_text funcs
        ++ str " (" ++ percentage docs funcs ++ str "%)" ++ [LF].

Definition file_line (e : text * (text * text)) : text :=
  report_line (basename (path_join (fst e) (fst (snd e))))
              (snd (entry_counts e)) (fst (entry_counts e)).

(** The state that the loops reach from [st] over the entries [es]. *)
Definition after (st : state) (es : list (text * (text * text))) : state :=
  let qs := List.filter qualifies es in
  mkState (total_funcs st + sum_funcs qs)
          (total_documented st + sum_docs qs)
          (stdout st ++ List.concat (List.map file_line qs)).

(** ** The declaration pattern in words *)

(** A possibly empty run of whitespace. *)
Definition blank (s : text) : Prop := forallb is_space s = true.

(** At least one whitespace character. *)
Definition spaces (s : text) : Prop := s <> [] /\ blank s.

(** A keyword followed by whitespace. *)
Definition keyword (kw : string) (s : text) : Prop :=
  exists sp, s = str kw ++ sp /\ spaces sp.

Definition visibility (s : text) : Prop :=
  keyword "public" s \/ keyword "private" s \/
  keyword "internal" s \/ keyword "fileprivate" s.

Definition optional (P : text -> Prop) (s : text) : Prop := s = [] \/ P s.

(** A non-empty run of word characters. *)
Definition identifier (s : text) : Prop := s <> [] /\ forallb is_word s = true.

(** [func], whitespace, an identifier. *)
Definition func_ident (s : text) : Prop :=
  exists sp id, s = str "func" ++ sp ++ id /\ spaces sp /\ identifier id.

(** [init] followed immediately by an opening parenthesis. *)
Definition init_paren (s : text) : Prop := s = str "init(".

(** [init], any amount of whitespace, an opening parenthesis. *)
Definition init_blank_paren (s : text) : Prop :=
  exists sp, s = str "init" ++ sp ++ str "(" /\ blank sp.

(** Leading whitespace, an optional visibility keyword, an optional [static],
    then the core of the declaration; what follows is not looked at. *)
Definition decl_shape (core : text -> Prop) (line : text) : Prop :=
  exists lead vis st c rest,
    line = lead ++ vis ++ st ++ c ++ rest /\
    blank lead /\ optional visibility vis /\
    optional (keyword "static") st /\ core c.

(** The pattern with [init(] only. *)
Definition declaration_strict (line : text) : Prop :=
  decl_shape (fun c => func_ident c \/ init_paren c) line.

(** The pattern with whitespace allowed between [init] and the parenthesis. *)
Definition declaration (line : text) : Prop :=
  decl_shape (fun c => func_ident c \/ init_blank_paren c) line.

(** The pattern of line 10 around an arbitrary core. *)
Definition decl_regex (core : regex) : regex :=
  Seq (Star ws)
   (Seq (Opt (Alt (Seq (Lit (str "public")) (Plus ws))
             (Alt (Seq (Lit (str "private")) (Plus ws))
             (Alt (Seq (Lit (str "internal")) (Plus ws))
                  (Seq (Lit (str "fileprivate")) (Plus ws))))))
   (Seq (Opt (Seq (Lit (str "static")) (Plus ws))) core)).

Definition func_core : regex := Seq (Lit (str "func")) (Seq (Plus ws) (Plus wd)).
Definition init_core : regex := Seq (Lit (str "init")) (Seq (Star ws) (Chr 40%N)).
Definition init_core_strict : regex := Seq (Lit (str "init")) (Chr 40%N).

(** * Properties *)

(** ** Regular expressions: the matcher finds the words of the expression *)

Lemma Matches_Empty_iff s : Matches Empty s <-> False.
Proof. split; [intro H; inversion H | tauto]. Qed.

Lemma Matches_Eps_iff s : Matches Eps s <-> s = [].
Proof. split; [intro H; inversion H; reflexivity | intros ->; constructor]. Qed.

Lemma Matches_Class_iff p s : Matches (Class p) s <-> exists c, s = [c] /\ p c = true.
Proof.
  split.
  - intro H; inversion H; subst; eauto.
  - intros (c & -> & Hc); now constructor.
Qed.

Lemma Matches_Seq_iff r1 r2 s :
  Matches (Seq r1 r2) s <-> exists s1 s2, s = s1 ++ s2 /\ Matches r1 s1 /\ Matches r2 s2.
Proof.
  split.
  - intro H; inversion H; subst; eauto.
  - intros (s1 & s2 & -> & H1 & H2); now constructor.
Qed.

Lemma Matches_Alt_iff r1 r2 s : Matches (Alt r1 r2) s <-> Matches r1 s \/ Matches r2 s.
Proof.
  split.
  - intro H; inversion H; subst; auto.
  - intros [H | H]; [now apply MAltL | now apply MAltR].
Qed.

Lemma Matches_Opt_iff r s : Matches (Opt r) s <-> s = [] \/ Matches r s.
Proof. unfold Opt. rewrite Matches_Alt_iff, Matches_Eps_iff. tauto. Qed.

Lemma nullable_Matches r : nullable r = true <-> Matches r [].
Proof.
  split.
  - induction r; simpl; intro H; try discriminate.
    + constructor.
    + apply andb_true_iff in H as [H1 H2].
      change (@nil char) with (@nil char ++ []). constructor; auto.
    + apply orb_true_iff in H as [H | H]; [apply MAltL | apply MAltR]; auto.
    + constructor.
  - intro H. remember (@nil char) as s eqn:Es.
    induction H; simpl; auto; try discriminate.
    + apply app_eq_nil in Es as [-> ->]. now rewrite IHMatches1, IHMatches2.
    + now rewrite IHMatches.
    + rewrite IHMatches by assumption. apply orb_true_r.
Qed.

Lemma Matches_Star_cons r c s :
  Matches (Star r) (c :: s) ->
  exists s1 s2, s = s1 ++ s2 /\ Matches r (c :: s1) /\ Matches (Star r) s2.
Proof.
  intro H. remember (Star r) as r' eqn:Er. remember (c :: s) as w eqn:Ew.
  induction H; try discriminate.
  injection Er as ->.
  destruct s1 as [| x s1]; simpl in Ew.
  - now apply IHMatches2.
  - injection Ew as -> <-. eauto.
Qed.

Lemma deriv_Matches r : forall c s, Matches (deriv c r) s <-> Matches r (c :: s).
Proof.
  induction r as [| | p | r1 IH1 r2 IH2 | r1 IH1 r2 IH2 | r1 IH1]; intros c s; simpl.
  - rewrite !Matches_Empty_iff. tauto.
  - rewrite Matches_Empty_iff, Matches_Eps_iff. split; [tauto | discriminate].
  - rewrite Matches_Class_iff. destruct (p c) eqn:Hp.
    + rewrite Matches_Eps_iff. split.
      * intros ->. eauto.
      * intros (x & E & _). now injection E.
    + rewrite Matches_Empty_iff. split; [tauto |].
      intros (x & E & Hx). injection E as -> _. congruence.
  - assert (Hcons : Matches (Seq (deriv c r1) r2) s <->
                    exists s1 s2, s = s1 ++ s2 /\ Matches r1 (c :: s1) /\ Matches r2 s2).
    { rewrite Matches_Seq_iff. split; intros (s1 & s2 & E & H1 & H2);
        exists s1, s2; (split; [assumption |]); split; try assumption;
        now apply IH1. }
    rewrite (Matches_Seq_iff r1 r2 (c :: s)).
    destruct (nullable r1) eqn:Hn.
    + rewrite Matches_Alt_iff, Hcons, IH2. split.
      * intros [(s1 & s2 & -> & H1 & H2) | H2].
        -- exists (c :: s1), s2. auto.
        -- exists [], (c :: s). split; [reflexivity |]. split; [| assumption].
           now apply nullable_Matches.
      * intros (s1 & s2 & E & H1 & H2). destruct s1 as [| x s1]; simpl in E.
        -- right. now rewrite E.
        -- injection E as -> ->. left. eauto.
    + rewrite Hcons. split.
      * intros (s1 & s2 & -> & H1 & H2). exists (c :: s1), s2. auto.
      * intros (s1 & s2 & E & H1 & H2). destruct s1 as [| x s1]; simpl in E.
        -- apply nullable_Matches in H1. congruence.
        -- injection E as -> ->. eauto.
  - rewrite !Matches_Alt_iff, IH1, IH2. tauto.
  - rewrite Matches_Seq_iff. split.
    + intros (s1 & s2 & -> & H1 & H2). apply IH1 in H1.
      change (c :: s1 ++ s2) with ((c :: s1) ++ s2). now constructor.
    + intro H. apply Matches_Star_cons in H as (s1 & s2 & -> & H1 & H2).
      exists s1, s2. split; [reflexivity |]. split; [now apply IH1 | assumption].
Qed.

(** [re_match] succeeds exactly when a prefix of the subject is a word of the
    expression. *)
Lemma re_match_iff s : forall r,
  re_match r s = true <-> exists p q, s = p ++ q /\ Matches r p.
Proof.
  induction s as [| c s IH]; intro r; simpl.
  - rewrite orb_false_r, nullable_Matches. split.
    + intro H. now exists [], [].
    + intros (p & q & E & H). symmetry in E. apply app_eq_nil in E as [-> _]. assumption.
  - rewrite orb_true_iff, nullable_Matches, IH. split.
    + intros [H | (p & q & -> & H)].
      * now exists [], (c :: s).
      * exists (c :: p), q. split; [reflexivity | now apply deriv_Matches].
    + intros (p & q & E & H). destruct p as [| x p]; simpl in E.
      * now left.
      * injection E as -> ->. right. exists p, q. split; [reflexivity |].
        now apply deriv_Matches.
Qed.

Lemma Matches_Star_Class p s : Matches (Star (Class p)) s <-> forallb p s = true.
Proof.
  split.
  - intro H. remember (Star (Class p)) as r eqn:Er.
    induction H; try discriminate; [reflexivity |].
    injection Er as ->. apply Matches_Class_iff in H as (c & -> & Hc). simpl.
    rewrite IHMatches2 by reflexivity. now rewrite Hc.
  - induction s as [| c s IH]; simpl; intro H.
    + constructor.
    + apply andb_true_iff in H as [Hc Hs].
      change (c :: s) with ([c] ++ s). constructor; [now constructor | auto].
Qed.

Lemma Matches_Plus_Class p s :
  Matches (Plus (Class p)) s <-> s <> [] /\ forallb p s = true.
Proof.
  unfold Plus. rewrite Matches_Seq_iff. split.
  - intros (s1 & s2 & -> & H1 & H2).
    apply Matches_Class_iff in H1 as (c & -> & Hc).
    apply Matches_Star_Class in H2. simpl. rewrite Hc, H2. split; [discriminate | reflexivity].
  - intros [Hne H]. destruct s as [| c s]; [congruence |]. simpl in H.
    apply andb_true_iff in H as [Hc Hs]. exists [c], s.
    split; [reflexivity |]. split; [now constructor | now apply Matches_Star_Class].
Qed.

Lemma Matches_Lit w : forall s, Matches (Lit w) s <-> s = w.
Proof.
  induction w as [| c w IH]; intro s; simpl.
  - apply Matches_Eps_iff.
  - unfold Chr. rewrite Matches_Seq_iff. split.
    + intros (s1 & s2 & -> & H1 & H2).
      apply Matches_Class_iff in H1 as (x & -> & Hx).
      apply N.eqb_eq in Hx as ->. apply IH in H2 as ->. reflexivity.
    + intros ->. exists [c], w. split; [reflexivity |].
      split; [constructor; apply N.eqb_refl | now apply IH].
Qed.

(** ** The pattern of line 10, piece by piece *)

Lemma Matches_Chr c s : Matches (Chr c) s <-> s = [c].
Proof.
  unfold Chr. rewrite Matches_Class_iff. split.
  - intros (x & -> & Hx). now apply N.eqb_eq in Hx as ->.
  - intros ->. exists c. split; [reflexivity | apply N.eqb_refl].
Qed.

Lemma Matches_blank s : Matches (Star ws) s <-> blank s.
Proof. apply Matches_Star_Class. Qed.

Lemma Matches_spaces s : Matches (Plus ws) s <-> spaces s.
Proof. apply Matches_Plus_Class. Qed.

Lemma Matches_keyword kw s :
  Matches (Seq (Lit (str kw)) (Plus ws)) s <-> keyword kw s.
Proof.
  unfold keyword. rewrite Matches_Seq_iff. split.
  - intros (s1 & s2 & -> & H1 & H2). apply Matches_Lit in H1 as ->.
    exists s2. split; [reflexivity | now apply Matches_spaces].
  - intros (sp & -> & H). exists (str kw), sp.
    split; [reflexivity |]. split; [now apply Matches_Lit | now apply Matches_spaces].
Qed.

Lemma Matches_func_core s : Matches func_core s <-> func_ident s.
Proof.
  unfold func_core, func_ident, identifier. rewrite Matches_Seq_iff. split.
  - intros (s1 & s2 & -> & H1 & H2). apply Matches_Lit in H1 as ->.
    apply Matches_Seq_iff in H2 as (sp & id & -> & Hsp & Hid).
    exists sp, id. split; [reflexivity |].
    split; [now apply Matches_spaces | now apply Matches_Plus_Class].
  - intros (sp & id & -> & Hsp & Hid). exists (str "func"), (sp ++ id).
    split; [reflexivity |]. split; [now apply Matches_Lit |].
    apply Matches_Seq_iff. exists sp, id. split; [reflexivity |].
    split; [now apply Matches_spaces | now apply Matches_Plus_Class].
Qed.

Lemma Matches_init_core s : Matches init_core s <-> init_blank_paren s.
Proof.
  unfold init_core, init_blank_paren. rewrite Matches_Seq_iff. split.
  - intros (s1 & s2 & -> & H1 & H2). apply Matches_Lit in H1 as ->.
    apply Matches_Seq_iff in H2 as (sp & par & -> & Hsp & Hpar).
    apply Matches_Chr in Hpar as ->. exists sp.
    split; [reflexivity | now apply Matches_blank].
  - intros (sp & -> & Hsp). exists (str "init"), (sp ++ str "(").
    split; [reflexivity |]. split; [now apply Matches_Lit |].
    apply Matches_Seq_iff. exists sp, (str "("). split; [reflexivity |].
    split; [now apply Matches_blank | now apply Matches_Chr].
Qed.

Lemma Matches_init_core_strict s : Matches init_core_strict s <-> init_paren s.
Proof.
  unfold init_core_strict, init_paren. rewrite Matches_Seq_iff. split.
  - intros (s1 & s2 & -> & H1 & H2). apply Matches_Lit in H1 as ->.
    apply Matches_Chr in H2 as ->. reflexivity.
  - intros ->. exists (str "init"), (str "(").
    split; [reflexivity |]. split; [now apply Matches_Lit | now apply Matches_Chr].
Qed.

Lemma Matches_visibility s :
  Matches (Alt (Seq (Lit (str "public")) (Plus ws))
          (Alt (Seq (Lit (str "private")) (Plus ws))
          (Alt (Seq (Lit (str "internal")) (Plus ws))
               (Seq (Lit (str "fileprivate")) (Plus ws))))) s
  <-> visibility s.
Proof. unfold visibility. now rewrite !Matches_Alt_iff, !Matches_keyword. Qed.

Lemma decl_shape_ext (P Q : text -> Prop) line :
  (forall c, P c <-> Q c) -> decl_shape P line <-> decl_shape Q line.
Proof.
  intro HPQ. unfold decl_shape.
  split; intros (lead & vis & st & c & rest & E & H1 & H2 & H3 & H4);
    exists lead, vis, st, c, rest; repeat split; try assumption; now apply HPQ.
Qed.

(** The pattern around a core matches the lines of the shape around the
    words of that core. *)
Lemma decl_regex_shape core line :
  re_match (decl_regex core) line = true <-> decl_shape (Matches core) line.
Proof.
  rewrite re_match_iff. unfold decl_regex, decl_shape, optional. split.
  - intros (p & rest & -> & H).
    apply Matches_Seq_iff in H as (lead & p1 & -> & Hlead & H).
    apply Matches_Seq_iff in H as (vis & p2 & -> & Hvis & H).
    apply Matches_Seq_iff in H as (st & c & -> & Hst & Hc).
    exists lead, vis, st, c, rest. rewrite <- !app_assoc.
    split; [reflexivity |]. split; [now apply Matches_blank |].
    split; [apply Matches_Opt_iff in Hvis as [-> | Hv];
            [now left | right; now apply Matches_visibility] |].
    split; [| assumption].
    apply Matches_Opt_iff in Hst as [-> | Hs];
      [now left | right; now apply Matches_keyword].
  - intros (lead & vis & st & c & rest & -> & Hlead & Hvis & Hst & Hc).
    exists (lead ++ vis ++ st ++ c), rest. rewrite <- !app_assoc.
    split; [reflexivity |].
    apply Matches_Seq_iff. exists lead, (vis ++ st ++ c).
    split; [reflexivity |]. split; [now apply Matches_blank |].
    apply Matches_Seq_iff. exists vis, (st ++ c).
    split; [reflexivity |]. split.
    { apply Matches_Opt_iff. destruct Hvis as [-> | Hv];
        [now left | right; now apply Matches_visibility]. }
    apply Matches_Seq_iff. exists st, c.
    split; [reflexivity |]. split; [| assumption].
    apply Matches_Opt_iff. destruct Hst as [-> | Hs];
      [now left | right; now apply Matches_keyword].
Qed.

Lemma decl_pattern_regex : decl_pattern = decl_regex (Alt func_core init_core).
Proof. reflexivity. Qed.

(** The analyzer's test, in words. *)
Lemma is_declaration_iff line : is_declaration line = true <-> declaration line.
Proof.
  unfold is_declaration, declaration.
  rewrite decl_pattern_regex, decl_regex_shape.
  apply decl_shape_ext. intro c.
  now rewrite Matches_Alt_iff, Matches_func_core, Matches_init_core.
Qed.

Lemma declaration_strict_iff line :
  re_match (decl_regex (Alt func_core init_core_strict)) line = true
  <-> declaration_strict line.
Proof.
  unfold declaration_strict. rewrite decl_regex_shape.
  apply decl_shape_ext. intro c.
  now rewrite Matches_Alt_iff, Matches_func_core, Matches_init_core_strict.
Qed.

(** ** Indices, slices and substrings *)

Lemma In_enumerate_from {A : Type} (l : list A) : forall k i x,
  In (i, x) (enumerate_from k l) <->
  k <= i /\ nth_error l (Z.to_nat (i - k)) = Some x.
Proof.
  induction l as [| y l IH]; intros k i x; simpl.
  - split; [tauto |]. intros [_ H]. destruct (Z.to_nat (i - k)); discriminate.
  - rewrite IH. split.
    + intros [E | [Hk Hn]].
      * injection E as -> ->. rewrite Z.sub_diag. simpl. split; [lia | reflexivity].
      * split; [lia |].
        replace (Z.to_nat (i - k)) with (S (Z.to_nat (i - (k + 1)))) by lia.
        exact Hn.
    + intros [Hk Hn]. destruct (Z.eq_dec i k) as [-> | Hne].
      * rewrite Z.sub_diag in Hn. simpl in Hn. injection Hn as ->. now left.
      * right. split; [lia |].
        replace (Z.to_nat (i - k)) with (S (Z.to_nat (i - (k + 1)))) in Hn by lia.
        exact Hn.
Qed.

Lemma enumerate_from_app {A : Type} (l1 l2 : list A) : forall k,
  enumerate_from k (l1 ++ l2) =
  enumerate_from k l1 ++ enumerate_from (k + Z.of_nat (List.length l1)) l2.
Proof.
  induction l1 as [| y l1 IH]; intro k; simpl.
  - now rewrite Z.add_0_r.
  - rewrite IH. do 3 f_equal. lia.
Qed.

Lemma In_firstn_skipn {A : Type} (l : list A) (m n : nat) (x : A) :
  In x (firstn n (skipn m l)) <->
  exists j, (m <= j < m + n)%nat /\ nth_error l j = Some x.
Proof.
  split.
  - intro H. apply In_nth_error in H as [i Hi].
    rewrite nth_error_firstn in Hi. destruct (Nat.ltb_spec i n); [| discriminate].
    rewrite nth_error_skipn in Hi. exists (m + i)%nat. split; [lia | assumption].
  - intros (j & Hj & Hx). apply nth_error_In with (n := (j - m)%nat).
    rewrite nth_error_firstn. destruct (Nat.ltb_spec (j - m) n); [| lia].
    rewrite nth_error_skipn. now replace (m + (j - m))%nat with j by lia.
Qed.

(** The elements of [l[a:b]] for bounds that are not negative. *)
Lemma In_slice {A : Type} (l : list A) (a b : Z) (x : A) :
  0 <= a -> 0 <= b ->
  In x (slice l a b) <->
  exists j, a <= j < b /\ nth_error l (Z.to_nat j) = Some x.
Proof.
  intros Ha Hb. unfold slice, slice_bound.
  destruct (Z.ltb_spec a 0); [lia |]. destruct (Z.ltb_spec b 0); [lia |].
  rewrite In_firstn_skipn. split.
  - intros (j & Hj & Hx). exists (Z.of_nat j). rewrite Nat2Z.id.
    split; [lia | assumption].
  - intros (j & Hj & Hx). exists (Z.to_nat j). split; [| assumption].
    assert (Hlt : (Z.to_nat j < List.length l)%nat).
    { apply nth_error_Some. congruence. }
    lia.
Qed.

Lemma slice_app_l {A : Type} (l1 l2 : list A) (a b : Z) :
  0 <= a -> 0 <= b <= Z.of_nat (List.length l1) ->
  slice (l1 ++ l2) a b = slice l1 a b.
Proof.
  intros Ha Hb. unfold slice, slice_bound. rewrite length_app.
  destruct (Z.ltb_spec a 0); [lia |]. destruct (Z.ltb_spec b 0); [lia |].
  replace (Z.min b (Z.of_nat (List.length l1 + List.length l2))) with b by lia.
  replace (Z.min b (Z.of_nat (List.length l1))) with b by lia.
  destruct (Z.le_gt_cases a (Z.of_nat (List.length l1))) as [Hle | Hgt].
  - replace (Z.min a (Z.of_nat (List.length l1 + List.length l2))) with a by lia.
    replace (Z.min a (Z.of_nat (List.length l1))) with a by lia.
    rewrite skipn_app, firstn_app, length_skipn.
    replace (Z.to_nat (b - a) - (List.length l1 - Z.to_nat a))%nat with 0%nat by lia.
    simpl. now rewrite app_nil_r.
  - replace (Z.to_nat (b - Z.min a (Z.of_nat (List.length l1 + List.length l2))))
      with 0%nat by lia.
    replace (Z.to_nat (b - Z.min a (Z.of_nat (List.length l1)))) with 0%nat by lia.
    reflexivity.
Qed.

Lemma starts_with_iff p : forall s,
  starts_with p s = true <-> exists post, s = p ++ post.
Proof.
  induction p as [| a p IH]; intro s; simpl.
  - split; [intros _; now exists s | reflexivity].
  - destruct s as [| b s].
    + split; [discriminate | intros (post & E); discriminate].
    + rewrite andb_true_iff, N.eqb_eq, IH. split.
      * intros [-> (post & ->)]. now exists post.
      * intros (post & E). injection E as -> ->. split; [reflexivity | now exists post].
Qed.

(** [sub in s] holds when [sub] occurs somewhere in [s]. *)
Lemma contains_iff sub : forall s,
  contains sub s = true <-> exists pre post, s = pre ++ sub ++ post.
Proof.
  induction s as [| c s IH]; simpl.
  - rewrite orb_false_r, starts_with_iff. split.
    + intros (post & E). now exists [], post.
    + intros (pre & post & E). symmetry in E.
      apply app_eq_nil in E as [-> E]. now exists post.
  - rewrite orb_true_iff, starts_with_iff, IH. split.
    + intros [(post & E) | (pre & post & ->)].
      * now exists [], post.
      * now exists (c :: pre), post.
    + intros (pre & post & E). destruct pre as [| x pre]; simpl in E.
      * left. now exists post.
      * injection E as -> ->. right. now exists pre, post.
Qed.

(** ** The analyzer's two loops *)

Lemma fold_func_lines (l : list (Z * text)) : forall acc,
  fold_left
    (fun acc p => if is_declaration (snd p) then acc ++ [fst p] else acc) l acc
  = acc ++ List.map fst (List.filter (fun p => is_declaration (snd p)) l).
Proof.
  induction l as [| p l IH]; intro acc; simpl.
  - now rewrite app_nil_r.
  - rewrite IH. destruct (is_declaration (snd p)); simpl; [| reflexivity].
    now rewrite <- app_assoc.
Qed.

Lemma func_lines_filter lines :
  func_lines lines =
  List.map fst (List.filter (fun p => is_declaration (snd p)) (enumerate lines)).
Proof. unfold func_lines. now rewrite fold_func_lines. Qed.

(** The detected declarations are the indices of the matching lines. *)
Lemma In_func_lines lines i :
  In i (func_lines lines) <->
  exists line, 0 <= i /\ nth_error lines (Z.to_nat i) = Some line /\
               is_declaration line = true.
Proof.
  rewrite func_lines_filter, in_map_iff. split.
  - intros ([j line] & E & H). simpl in E. subst j.
    apply filter_In in H as [H Hd]. simpl in Hd.
    apply In_enumerate_from in H as [H0 Hn]. rewrite Z.sub_0_r in Hn. eauto.
  - intros (line & H0 & Hn & Hd). exists (i, line). split; [reflexivity |].
    apply filter_In. split; [| assumption].
    apply In_enumerate_from. now rewrite Z.sub_0_r.
Qed.

Lemma func_lines_app L S :
  func_lines (L ++ S) =
  func_lines L ++
  List.map fst (List.filter (fun p => is_declaration (snd p))
                  (enumerate_from (Z.of_nat (List.length L)) S)).
Proof.
  rewrite !func_lines_filter. unfold enumerate.
  now rewrite enumerate_from_app, filter_app, map_app.
Qed.

Lemma fold_count_documented lines fl : forall acc,
  fold_left
    (fun documented line_num =>
       if has_doc lines line_num then documented + 1 else documented) fl acc
  = acc + Z.of_nat (List.length (List.filter (has_doc lines) fl)).
Proof.
  induction fl as [| i fl IH]; intro acc; simpl.
  - lia.
  - rewrite IH. destruct (has_doc lines i); simpl; lia.
Qed.

(** [documented] counts the declarations whose window has the marker. *)
Lemma count_documented_filter lines fl :
  count_documented lines fl =
  Z.of_nat (List.length (List.filter (has_doc lines) fl)).
Proof. unfold count_documented. now rewrite fold_count_documented. Qed.

Lemma has_doc_iff lines i :
  0 <= i ->
  has_doc lines i = true <->
  exists j line, Z.max 0 (i - 10) <= j < i /\
                 nth_error lines (Z.to_nat j) = Some line /\
                 contains doc_marker line = true.
Proof.
  intro Hi. unfold has_doc, prev_lines. rewrite existsb_exists. split.
  - intros (line & Hin & Hc). apply In_slice in Hin as (j & Hj & Hn); try lia. eauto.
  - intros (j & line & Hj & Hn & Hc). exists line. split; [| assumption].
    apply In_slice; try lia. eauto.
Qed.

Lemma prev_lines_0 lines : prev_lines lines 0 = [].
Proof.
  unfold prev_lines, slice, slice_bound. simpl.
  change (Z.max 0 (-10)) with 0.
  replace (Z.min 0 (Z.of_nat (List.length lines))) with 0 by lia. reflexivity.
Qed.

Lemma prev_lines_app L S i :
  0 <= i <= Z.of_nat (List.length L) -> prev_lines (L ++ S) i = prev_lines L i.
Proof. intro Hi. unfold prev_lines. apply slice_app_l; lia. Qed.

(** [readlines] cuts the text and loses nothing. *)
Lemma concat_readlines s : List.concat (readlines s) = s.
Proof.
  induction s as [| c s IH]; simpl; [reflexivity |].
  destruct (N.eqb_spec c LF).
  - simpl. now rewrite IH.
  - destruct (readlines s) as [| l ls]; simpl in *; now rewrite <- IH.
Qed.

Example analyze_empty_file : analyze_file [] = (0, 0).
Proof. reflexivity. Qed.

Example analyze_undocumented_func :
  analyze_file (str "func foo() {}" ++ [LF]) = (1, 0).
Proof. vm_compute. reflexivity. Qed.

Example analyze_documented_func :
  analyze_file (str "/// doc" ++ [LF] ++ str "func foo() {}" ++ [LF]) = (1, 1).
Proof. vm_compute. reflexivity. Qed.

Example analyze_shared_comment :
  analyze_file (str "/// doc" ++ [LF] ++ str "func foo() {}" ++ [LF] ++
                str "func bar() {}" ++ [LF]) = (2, 2).
Proof. vm_compute. reflexivity. Qed.

Lemma analyze_lines_bounds lines :
  0 <= snd (analyze_lines lines) <= fst (analyze_lines lines).
Proof.
  unfold analyze_lines. simpl. rewrite count_documented_filter.
  pose proof (filter_length_le (has_doc lines) (func_lines lines)). lia.
Qed.

(** ** Paths *)

Lemma text_eqb_eq a : forall b, text_eqb a b = true <-> a = b.
Proof.
  induction a as [| x a IH]; intros [| y b]; simpl;
    try (split; [discriminate | discriminate]); [tauto |].
  rewrite andb_true_iff, N.eqb_eq, IH. split.
  - now intros [-> ->].
  - intro E. now injection E.
Qed.

Lemma endswith_iff s suffix :
  endswith s suffix = true <-> exists pre, s = pre ++ suffix.
Proof.
  unfold endswith. rewrite andb_true_iff, Nat.leb_le, text_eqb_eq. split.
  - intros [_ E]. exists (firstn (List.length s - List.length suffix) s).
    transitivity (firstn (List.length s - List.length suffix) s ++
                  skipn (List.length s - List.length suffix) s).
    + symmetry. apply firstn_skipn.
    + f_equal. exact E.
  - intros (pre & ->). rewrite length_app. split; [lia |].
    replace (List.length pre + List.length suffix - List.length suffix)%nat
      with (List.length pre + 0)%nat by lia.
    now rewrite skipn_app, Nat.add_0_r, skipn_all, Nat.sub_diag.
Qed.

(** [rfind] finds the last occurrence. *)
Lemma rfind_from_spec c s : forall i,
  0 <= i ->
  (rfind_from c s i = -1 /\ ~ In c s) \/
  (exists pre post, s = pre ++ c :: post /\ ~ In c post /\
                    rfind_from c s i = i + Z.of_nat (List.length pre)).
Proof.
  induction s as [| x s IH]; intros i Hi; simpl.
  - left. tauto.
  - destruct (IH (i + 1)) as [[Hr Hn] | (pre & post & -> & Hn & Hr)]; [lia | |].
    + rewrite Hr. simpl. destruct (N.eqb_spec x c) as [-> | Hx].
      * right. exists [], s. simpl. repeat split; [assumption | lia].
      * left. split; [reflexivity |]. intros [E | H]; [congruence | tauto].
    + right. exists (x :: pre), post. rewrite Hr.
      destruct (Z.leb_spec 0 (i + 1 + Z.of_nat (List.length pre))); [| lia].
      simpl List.length. repeat split; [assumption | lia].
Qed.

Lemma slice_to_end {A : Type} (l : list A) (n : nat) :
  (n <= List.length l)%nat ->
  slice l (Z.of_nat n) (Z.of_nat (List.length l)) = skipn n l.
Proof.
  intro Hn. unfold slice, slice_bound.
  destruct (Z.ltb_spec (Z.of_nat n) 0); [lia |].
  destruct (Z.ltb_spec (Z.of_nat (List.length l)) 0); [lia |].
  rewrite !Z.min_l by lia. rewrite Nat2Z.id.
  apply firstn_all2. rewrite length_skipn. lia.
Qed.

(** [basename] is the part after the last separator. *)
Lemma basename_spec p :
  (~ In SEP p /\ basename p = p) \/
  (exists pre post, p = pre ++ SEP :: post /\ ~ In SEP post /\ basename p = post).
Proof.
  unfold basename, rfind.
  destruct (rfind_from_spec SEP p 0) as [[Hr Hn] | (pre & post & E & Hn & Hr)]; [lia | |].
  - left. split; [assumption |]. rewrite Hr.
    change (-1 + 1) with (Z.of_nat 0). rewrite slice_to_end by lia. reflexivity.
  - right. exists pre, post. split; [assumption |]. split; [assumption |].
    rewrite Hr.
    replace (0 + Z.of_nat (List.length pre) + 1)
      with (Z.of_nat (S (List.length pre))) by lia.
    rewrite slice_to_end by (rewrite E, length_app; simpl; lia).
    rewrite E. clear. induction pre as [| x pre IH]; simpl; [reflexivity | exact IH].
Qed.

Lemma basename_no_sep p : ~ In SEP (basename p).
Proof.
  destruct (basename_spec p) as [[Hn ->] | (pre & post & _ & Hn & ->)]; assumption.
Qed.

Lemma last_split_unique {A : Type} (c : A) (a : list A) : forall a' b b',
  a ++ c :: b = a' ++ c :: b' -> ~ In c b -> ~ In c b' -> b = b'.
Proof.
  induction a as [| x a IH]; intros [| y a'] b b' E Hb Hb'; simpl in E.
  - now injection E.
  - injection E as <- ->. exfalso. apply Hb. apply in_or_app. right. now left.
  - injection E as -> <-. exfalso. apply Hb'. apply in_or_app. right. now left.
  - injection E as _ E. eapply IH; eassumption.
Qed.

Lemma basename_after_sep pre file :
  ~ In SEP file -> basename (pre ++ SEP :: file) = file.
Proof.
  intro Hn.
  destruct (basename_spec (pre ++ SEP :: file))
    as [[Hno _] | (pre' & post & E & Hp & ->)].
  - exfalso. apply Hno. apply in_or_app. right. now left.
  - symmetry. eapply last_split_unique; eassumption.
Qed.

(** The base name of a path joined from a directory and a plain file name
    is that file name. *)
Lemma basename_path_join root file :
  ~ In SEP file -> basename (path_join root file) = file.
Proof.
  intro Hn. unfold path_join.
  destruct (starts_with [SEP] file) eqn:Hs.
  { apply starts_with_iff in Hs as (post & ->). exfalso. apply Hn. now left. }
  destruct root as [| r root]; simpl orb.
  - simpl. destruct (basename_spec file) as [[_ E] | (pre & post & E & _)]; [assumption |].
    exfalso. apply Hn. rewrite E. apply in_or_app. right. now left.
  - destruct (endswith (r :: root) [SEP]) eqn:He.
    + apply endswith_iff in He as (pre & ->). rewrite <- app_assoc.
      now apply basename_after_sep.
    + now apply basename_after_sep.
Qed.

(** ** Doubles: the quotient of two counts *)

Lemma digits2_pos_size p : digits2_pos p = Pos.size p.
Proof. induction p; simpl; congruence. Qed.

Lemma Zdigits2_log2 p : Zdigits2 (Zpos p) = Z.log2 (Zpos p) + 1.
Proof.
  simpl. rewrite digits2_pos_size. destruct p; simpl; lia.
Qed.

Lemma Zdigits2_bound m k : 0 <= m < 2 ^ k -> 0 <= k -> 0 <= Zdigits2 m <= k.
Proof.
  intros [Hm Hlt] Hk. destruct m as [| p | p]; [simpl; lia | | lia].
  rewrite Zdigits2_log2. pose proof (Z.log2_nonneg (Zpos p)).
  assert (Z.log2 (Zpos p) < k) by (apply Z.log2_lt_pow2; lia). lia.
Qed.

Lemma Zdigits2_mono a b : 0 < a <= b -> Zdigits2 a <= Zdigits2 b.
Proof.
  intros [Ha Hab]. destruct a as [| pa | pa]; try lia.
  destruct b as [| pb | pb]; try lia.
  rewrite !Zdigits2_log2. pose proof (Z.log2_le_mono (Zpos pa) (Zpos pb) Hab). lia.
Qed.

Lemma shr_1_bounds mrs : 0 <= shr_m mrs -> 0 <= shr_m (shr_1 mrs) <= shr_m mrs.
Proof.
  destruct mrs as [m r s]. simpl. intro Hm.
  destruct m as [| [p | p |] | p]; simpl; lia.
Qed.

Lemma iter_shr_1_bounds p : forall mrs,
  0 <= shr_m mrs -> 0 <= shr_m (iter_pos shr_1 p mrs) <= shr_m mrs.
Proof.
  induction p as [p IH | p IH |]; intros mrs Hm; simpl.
  - pose proof (shr_1_bounds mrs Hm) as H1.
    pose proof (IH (shr_1 mrs) ltac:(lia)) as H2.
    pose proof (IH (iter_pos shr_1 p (shr_1 mrs)) ltac:(lia)). lia.
  - pose proof (IH mrs Hm) as H1.
    pose proof (IH (iter_pos shr_1 p mrs) ltac:(lia)). lia.
  - now apply shr_1_bounds.
Qed.

Lemma shr_record_of_loc_m m l : shr_m (shr_record_of_loc m l) = m.
Proof. destruct l as [| []]; reflexivity. Qed.

Lemma shr_bounds mrs e n mrs' e' :
  shr mrs e n = (mrs', e') -> 0 <= shr_m mrs ->
  0 <= shr_m mrs' <= shr_m mrs /\ e' = e + Z.max 0 n.
Proof.
  unfold shr. destruct n as [| p | p]; intros E Hm; injection E as <- <-.
  - split; lia.
  - split; [now apply iter_shr_1_bounds | lia].
  - split; lia.
Qed.

Lemma round_nearest_even_bounds m l : m <= round_nearest_even m l <= m + 1.
Proof. unfold round_nearest_even. destruct l as [| []]; try destruct (Z.even m); lia. Qed.

Lemma fexp_le x : fexp fprec femax x = Z.max (x - 53) (-1074).
Proof. reflexivity. Qed.

(** Rounding a value of at most one never overflows. *)
Lemma binary_round_aux_small sx m s l :
  53 <= s <= 1074 -> 0 <= m <= 2 ^ s ->
  forall sy, binary_round_aux fprec femax sx m (- s) l <> S754_infinity sy.
Proof.
  intros Hs Hm sy. unfold binary_round_aux, shr_fexp.
  destruct (shr (shr_record_of_loc m l) (- s) _) as [mrs1 e1] eqn:E1.
  apply shr_bounds in E1 as [Hm1 He1]; [| rewrite shr_record_of_loc_m; lia].
  rewrite shr_record_of_loc_m in Hm1.
  assert (Hd : 0 <= Zdigits2 m <= s + 1).
  { apply Zdigits2_bound; [| lia].
    replace (s + 1) with (Z.succ s) by lia. rewrite Z.pow_succ_r by lia.
    pose proof (Z.pow_pos_nonneg 2 s). lia. }
  rewrite fexp_le in He1.
  set (m2 := round_nearest_even (shr_m mrs1) (loc_of_shr_record mrs1)).
  pose proof (round_nearest_even_bounds (shr_m mrs1) (loc_of_shr_record mrs1)) as Hm2.
  fold m2 in Hm2.
  destruct (shr (shr_record_of_loc m2 loc_Exact) e1 _) as [mrs2 e2] eqn:E2.
  apply shr_bounds in E2 as [_ He2]; [| simpl; lia].
  assert (Hd2 : 0 <= Zdigits2 m2 <= s + 2).
  { apply Zdigits2_bound; [| lia].
    replace (s + 2) with (Z.succ (Z.succ s)) by lia.
    rewrite !Z.pow_succ_r by lia.
    pose proof (Z.pow_pos_nonneg 2 s). lia. }
  rewrite fexp_le in He2.
  destruct (shr_m mrs2); try discriminate.
  destruct (Z.leb_spec e2 (femax - fprec)); [discriminate |].
  unfold femax, fprec in *. lia.
Qed.

Lemma SFdiv_core_counts pa pb :
  Zpos pa <= Zpos pb ->
  exists q s l,
    SFdiv_core_binary fprec femax (Zpos pa) 0 (Zpos pb) 0 = (q, - s, l) /\
    53 <= s <= 1074 /\ 0 <= q <= 2 ^ s.
Proof.
  intro Hab. unfold SFdiv_core_binary.
  pose proof (Zdigits2_mono (Zpos pa) (Zpos pb) ltac:(lia)) as Hd.
  set (d1 := Zdigits2 (Zpos pa)) in *. set (d2 := Zdigits2 (Zpos pb)) in *.
  rewrite fexp_le.
  set (e := Z.min (Z.max (d1 + 0 - (d2 + 0) - 53) (-1074)) (0 - 0)).
  assert (He : -1074 <= e <= -53) by (unfold e; lia).
  replace (0 - 0 - e) with (- e) by lia.
  destruct (- e) as [| p | p] eqn:Es; try lia.
  rewrite Z.shiftl_mul_pow2 by lia.
  pose proof (Z.pow_pos_nonneg 2 (Zpos p) ltac:(lia) ltac:(lia)) as Hpow.
  pose proof (Z_div_mod (Zpos pa * 2 ^ Zpos p) (Zpos pb) ltac:(lia)) as Hdm.
  destruct (Z.div_eucl (Zpos pa * 2 ^ Zpos p) (Zpos pb)) as [q r].
  exists q, (Zpos p), (new_location (Zpos pb) r).
  split; [f_equal; f_equal; lia |]. split; [lia |].
  destruct Hdm as [Hq Hr]. split; nia.
Qed.

(** The quotient of two counts is a finite double. *)
Lemma SFdiv_counts_finite a b :
  0 <= a <= b -> 0 < b ->
  forall s, SFdiv fprec femax (exact_int a) (exact_int b) <> S754_infinity s.
Proof.
  intros Hab Hb s. destruct b as [| pb | pb]; try lia.
  destruct a as [| pa | pa]; try lia; [discriminate |].
  unfold exact_int, SFdiv.
  destruct (SFdiv_core_counts pa pb) as (q & k & l & -> & Hk & Hq); [lia |].
  now apply binary_round_aux_small.
Qed.

(** ** Doubles: how far rounding moves a value *)

Lemma pow2_pos e : (0 < pow2 e)%R.
Proof. apply powerRZ_lt. lra. Qed.

Lemma pow2_add a b : pow2 (a + b) = (pow2 a * pow2 b)%R.
Proof. apply powerRZ_add. lra. Qed.

Lemma pow2_IZR n : 0 <= n -> pow2 n = IZR (2 ^ n).
Proof.
  intro Hn. unfold pow2. rewrite <- (Z2Nat.id n Hn) at 1.
  rewrite <- pow_powerRZ, pow_IZR. now rewrite Z2Nat.id.
Qed.

Lemma pow2_le a b : a <= b -> (pow2 a <= pow2 b)%R.
Proof.
  intro Hab. replace b with (a + (b - a)) by lia. rewrite pow2_add.
  rewrite (pow2_IZR (b - a)) by lia.
  assert (H : 1 <= 2 ^ (b - a)) by (pose proof (Z.pow_pos_nonneg 2 (b - a)); lia).
  pose proof (pow2_pos a). apply IZR_le in H. nra.
Qed.

Lemma pow2_neg_pos n : (pow2 n * pow2 (- n) = 1)%R.
Proof. rewrite <- pow2_add. now replace (n + - n) with 0 by lia. Qed.

Lemma shr_1_half mrs :
  0 <= shr_m mrs ->
  0 <= shr_m (shr_1 mrs) /\
  2 * shr_m (shr_1 mrs) <= shr_m mrs < 2 * shr_m (shr_1 mrs) + 2.
Proof.
  destruct mrs as [m r s]. simpl. intro Hm.
  destruct m as [| [p | p |] | p]; simpl; lia.
Qed.

(** Shifting by [p] bits is the division by [2^p], rounded down. *)
Lemma iter_shr_1_floor p : forall mrs,
  0 <= shr_m mrs ->
  0 <= shr_m (iter_pos shr_1 p mrs) /\
  shr_m (iter_pos shr_1 p mrs) * 2 ^ Zpos p <= shr_m mrs
    < (shr_m (iter_pos shr_1 p mrs) + 1) * 2 ^ Zpos p.
Proof.
  induction p as [p IH | p IH |]; intros mrs Hm; cbn [iter_pos].
  - destruct (shr_1_half mrs Hm) as [H0 H1].
    destruct (IH (shr_1 mrs) H0) as [H2 H3].
    destruct (IH (iter_pos shr_1 p (shr_1 mrs)) H2) as [H4 H5].
    replace (Zpos p~1) with (Zpos p + Zpos p + 1) by lia.
    rewrite !Z.pow_add_r by lia. change (2 ^ 1) with 2.
    pose proof (Z.pow_pos_nonneg 2 (Zpos p) ltac:(lia) ltac:(lia)).
    set (A := 2 ^ Zpos p) in *. split; [assumption |]. nia.
  - destruct (IH mrs Hm) as [H2 H3].
    destruct (IH (iter_pos shr_1 p mrs) H2) as [H4 H5].
    replace (Zpos p~0) with (Zpos p + Zpos p) by lia.
    rewrite !Z.pow_add_r by lia.
    pose proof (Z.pow_pos_nonneg 2 (Zpos p) ltac:(lia) ltac:(lia)).
    set (A := 2 ^ Zpos p) in *. split; [assumption |]. nia.
  - change (2 ^ 1) with 2. pose proof (shr_1_half mrs Hm). lia.
Qed.

(** Shifting keeps the value up to one unit of the new exponent. *)
Lemma shr_value mrs e n mrs' e' :
  shr mrs e n = (mrs', e') -> 0 <= shr_m mrs ->
  0 <= shr_m mrs' /\ e' = e + Z.max 0 n /\
  (F2R (shr_m mrs) e - pow2 e' < F2R (shr_m mrs') e' <= F2R (shr_m mrs) e)%R.
Proof.
  unfold shr. destruct n as [| p | p]; intros E Hm; injection E as <- <-.
  - rewrite Z.add_0_r. split; [assumption |]. split; [lia |].
    pose proof (pow2_pos e). lra.
  - destruct (iter_shr_1_floor p mrs Hm) as [H0 [H1 H2]].
    split; [assumption |]. split; [lia |].
    unfold F2R. rewrite pow2_add, (pow2_IZR (Zpos p)) by lia.
    apply IZR_le in H1. apply IZR_lt in H2.
    rewrite mult_IZR in H1, H2. rewrite plus_IZR in H2.
    pose proof (pow2_pos e).
    set (x := IZR (shr_m (iter_pos shr_1 p mrs))) in *.
    set (P := IZR (2 ^ Zpos p)) in *. set (m := IZR (shr_m mrs)) in *.
    split; nra.
  - split; [assumption |]. split; [lia |].
    pose proof (pow2_pos e). lra.
Qed.

Lemma mantissa_of_value m e k :
  0 <= m -> e <= k -> (F2R m e <= pow2 k)%R -> m <= 2 ^ (k - e).
Proof.
  intros Hm Hek Hv. apply le_IZR. rewrite <- pow2_IZR by lia.
  unfold F2R in Hv. replace k with ((k - e) + e) in Hv by lia.
  rewrite pow2_add in Hv. pose proof (pow2_pos e).
  apply Rmult_le_reg_r with (pow2 e); assumption.
Qed.

Lemma Zdigits2_le_pow m n : 0 <= n -> 0 <= m <= 2 ^ n + 1 -> 0 <= Zdigits2 m <= n + 2.
Proof.
  intros Hn Hm. apply Zdigits2_bound; [| lia].
  replace (n + 2) with (Z.succ (Z.succ n)) by lia. rewrite !Z.pow_succ_r by lia.
  pose proof (Z.pow_pos_nonneg 2 n). lia.
Qed.

(** Rounding a mantissa [m] at exponent [e], whose value is at most [2^k]:
    the result is a zero or a finite double of the same sign, less than two
    units of its last place below the value of [m] and at most one above. *)
Lemma binary_round_aux_value sx m e l k :
  0 <= m -> e <= k - 52 -> -1022 <= k <= 1022 -> (F2R m e <= pow2 k)%R ->
  exists mo eo,
    binary_round_aux fprec femax sx m e l = rounded sx mo eo /\
    0 <= mo /\ e <= eo <= k - 51 /\
    (F2R m e - 2 * pow2 eo < F2R mo eo <= F2R m e + pow2 eo)%R.
Proof.
  intros Hm Hek Hk Hv. unfold binary_round_aux, shr_fexp.
  destruct (shr (shr_record_of_loc m l) e _) as [mrs1 e1] eqn:E1.
  apply shr_value in E1; [| rewrite shr_record_of_loc_m; lia].
  rewrite shr_record_of_loc_m in E1. destruct E1 as (Hm1 & He1 & Hv1).
  pose proof (mantissa_of_value m e k Hm ltac:(lia) Hv) as Hmk.
  pose proof (Zdigits2_le_pow m (k - e) ltac:(lia) ltac:(lia)) as Hd.
  rewrite fexp_le in He1.
  assert (He1k : e <= e1 <= k - 51) by lia.
  set (m2 := round_nearest_even (shr_m mrs1) (loc_of_shr_record mrs1)).
  pose proof (round_nearest_even_bounds (shr_m mrs1) (loc_of_shr_record mrs1)) as Hm2.
  fold m2 in Hm2.
  destruct (shr (shr_record_of_loc m2 loc_Exact) e1 _) as [mrs2 e2] eqn:E2.
  apply shr_value in E2; [| simpl; lia].
  cbn [shr_record_of_loc shr_m] in E2. destruct E2 as (Hm3 & He2 & Hv2).
  assert (Hm1k : shr_m mrs1 <= 2 ^ (k - e1)).
  { apply mantissa_of_value; [lia | lia | lra]. }
  pose proof (Zdigits2_le_pow m2 (k - e1) ltac:(lia) ltac:(lia)) as Hd2.
  rewrite fexp_le in He2.
  assert (He2k : e1 <= e2 <= k - 51) by lia.
  assert (Hv12 : (F2R (shr_m mrs1) e1 <= F2R m2 e1 <= F2R (shr_m mrs1) e1 + pow2 e1)%R).
  { unfold F2R. pose proof (pow2_pos e1).
    destruct Hm2 as [Ha Hb]. apply IZR_le in Ha, Hb. rewrite plus_IZR in Hb.
    split; nra. }
  pose proof (pow2_le e1 e2 ltac:(lia)) as Hp12.
  exists (shr_m mrs2), e2.
  split.
  { destruct (shr_m mrs2) as [| mo | mo]; [reflexivity | | lia].
    destruct (Z.leb_spec e2 (femax - fprec)); [reflexivity |].
    unfold femax, fprec in *; lia. }
  split; [assumption |]. split; [lia |]. lra.
Qed.

(** The integer quotient that the division of two counts rounds. *)
Lemma SFdiv_core_quotient pa pb :
  Zpos pa <= Zpos pb ->
  exists q s l,
    SFdiv_core_binary fprec femax (Zpos pa) 0 (Zpos pb) 0 = (q, - s, l) /\
    53 <= s <= 1074 /\ 0 <= q /\
    Zpos pb * q <= Zpos pa * 2 ^ s < Zpos pb * (q + 1).
Proof.
  intro Hab. unfold SFdiv_core_binary.
  pose proof (Zdigits2_mono (Zpos pa) (Zpos pb) ltac:(lia)) as Hd.
  set (d1 := Zdigits2 (Zpos pa)) in *. set (d2 := Zdigits2 (Zpos pb)) in *.
  rewrite fexp_le.
  set (e := Z.min (Z.max (d1 + 0 - (d2 + 0) - 53) (-1074)) (0 - 0)).
  assert (He : -1074 <= e <= -53) by (unfold e; lia).
  replace (0 - 0 - e) with (- e) by lia.
  destruct (- e) as [| p | p] eqn:Es; try lia.
  rewrite Z.shiftl_mul_pow2 by lia.
  pose proof (Z.pow_pos_nonneg 2 (Zpos p) ltac:(lia) ltac:(lia)) as Hpow.
  pose proof (Z_div_mod (Zpos pa * 2 ^ Zpos p) (Zpos pb) ltac:(lia)) as Hdm.
  destruct (Z.div_eucl (Zpos pa * 2 ^ Zpos p) (Zpos pb)) as [q r].
  exists q, (Zpos p), (new_location (Zpos pb) r).
  split; [f_equal; f_equal; lia |]. split; [lia |].
  destruct Hdm as [Hq Hr]. split; nia.
Qed.

(** [a / b] in doubles is within [3 * 2^-51] of the quotient [a / b]. *)
Lemma SFdiv_counts_value a b :
  0 <= a <= b -> 0 < b ->
  exists mq xq,
    SFdiv fprec femax (exact_int a) (exact_int b) = rounded false mq xq /\
    0 <= mq /\ xq <= -51 /\
    (IZR a - 3 * pow2 (-51) * IZR b < F2R mq xq * IZR b
       <= IZR a + pow2 (-51) * IZR b)%R.
Proof.
  intros Hab Hb. destruct b as [| pb | pb]; try lia.
  assert (HbR : (0 < IZR (Zpos pb))%R) by (apply IZR_lt; lia).
  pose proof (pow2_pos (-51)) as Hp51.
  destruct a as [| pa | pa]; try lia.
  { exists 0, (-51). split; [reflexivity |]. split; [lia |]. split; [lia |].
    unfold F2R. split; nra. }
  unfold exact_int, SFdiv.
  destruct (SFdiv_core_quotient pa pb) as (q & s & l & -> & Hs & Hq & Hlo & Hhi); [lia |].
  assert (Hqs : q <= 2 ^ s).
  { pose proof (Z.pow_pos_nonneg 2 s ltac:(lia) ltac:(lia)). nia. }
  pose proof (pow2_neg_pos s) as Hinv. pose proof (pow2_pos (- s)) as Hps.
  pose proof (pow2_pos s) as Hps'.
  assert (Hv : (F2R q (- s) <= pow2 0)%R).
  { unfold F2R. apply IZR_le in Hqs. rewrite <- pow2_IZR in Hqs by lia.
    change (pow2 0) with 1%R. nra. }
  destruct (binary_round_aux_value (xorb false false) q (- s) l 0 Hq ltac:(lia) ltac:(lia) Hv)
    as (mo & eo & -> & Hmo & Heo & Hlo' & Hhi').
  exists mo, eo. split; [reflexivity |]. split; [assumption |]. split; [lia |].
  pose proof (pow2_le eo (-51) ltac:(lia)) as Hpe.
  pose proof (pow2_le (- s) eo ltac:(lia)) as Hpse.
  pose proof (pow2_pos eo) as Hpeo.
  apply IZR_le in Hlo. apply IZR_lt in Hhi.
  rewrite !mult_IZR in Hlo, Hhi. rewrite plus_IZR in Hhi.
  rewrite <- pow2_IZR in Hlo, Hhi by lia.
  unfold F2R in *.
  set (A := IZR (Zpos pa)) in *. set (B := IZR (Zpos pb)) in *.
  set (Q := IZR q) in *. set (X := (IZR mo * pow2 eo)%R) in *.
  assert (H1 : (B * (Q * pow2 (- s)) <= A)%R).
  { replace A with (A * pow2 s * pow2 (- s))%R by (rewrite Rmult_assoc, Hinv; lra).
    replace (B * (Q * pow2 (- s)))%R with (B * Q * pow2 (- s))%R by lra.
    apply Rmult_le_compat_r; lra. }
  assert (H2 : (A < B * (Q * pow2 (- s)) + B * pow2 (- s))%R).
  { replace A with (A * pow2 s * pow2 (- s))%R by (rewrite Rmult_assoc, Hinv; lra).
    replace (B * (Q * pow2 (- s)) + B * pow2 (- s))%R
      with (B * (Q + 1) * pow2 (- s))%R by lra.
    apply Rmult_lt_compat_r; lra. }
  split; nra.
Qed.

Lemma float_of_int_100 : float_of_int 100 = S754_finite false 7036874417766400 (-46).
Proof. reflexivity. Qed.

Lemma F2R_100 m e : F2R (m * 7036874417766400) (e + -46) = (100 * F2R m e)%R.
Proof.
  unfold F2R. rewrite mult_IZR, pow2_add.
  change 7036874417766400 with (100 * 2 ^ 46). rewrite mult_IZR, <- pow2_IZR by lia.
  pose proof (pow2_neg_pos 46) as H. cbn [Z.opp] in H.
  transitivity (100 * (IZR m * pow2 e) * (pow2 46 * pow2 (-46)))%R; [lra |].
  rewrite H. lra.
Qed.

Lemma pow2_m2 : pow2 (-2) = (/ 4)%R.
Proof. unfold pow2. simpl. lra. Qed.

Lemma pow2_m41 : (pow2 (-41) * 100000000000 <= 1)%R.
Proof.
  pose proof (pow2_neg_pos 41) as H. cbn [Z.opp] in H.
  rewrite (pow2_IZR 41) in H by lia. change (2 ^ 41) with 2199023255552 in H.
  pose proof (pow2_pos (-41)). nra.
Qed.

Lemma pow2_m51_m41 : (1024 * pow2 (-51) = pow2 (-41))%R.
Proof.
  change (-41) with (10 + -51). rewrite pow2_add, (pow2_IZR 10) by lia.
  change (2 ^ 10) with 1024. reflexivity.
Qed.

Lemma pow2_m44_m51 : (pow2 (-44) = 128 * pow2 (-51))%R.
Proof.
  change (-44) with (7 + -51). rewrite pow2_add, (pow2_IZR 7) by lia.
  change (2 ^ 7) with 128. reflexivity.
Qed.

(** [a / b * 100] in doubles is within [2^-41] of the percentage
    [100 * a / b]. *)
Lemma coverage_float_value a b :
  0 <= a <= b -> 0 < b ->
  exists mp xp,
    SFmul fprec femax (SFdiv fprec femax (exact_int a) (exact_int b)) (float_of_int 100)
      = rounded false mp xp /\
    0 <= mp /\ xp <= -44 /\
    (100 * IZR a - pow2 (-41) * IZR b < F2R mp xp * IZR b
       < 100 * IZR a + pow2 (-41) * IZR b)%R.
Proof.
  intros Hab Hb.
  destruct (SFdiv_counts_value a b Hab Hb) as (mq & xq & -> & Hmq & Hxq & Hlo & Hhi).
  rewrite float_of_int_100.
  assert (HbR : (0 < IZR b)%R) by (apply IZR_lt; lia).
  assert (HabR : (IZR a <= IZR b)%R) by (apply IZR_le; lia).
  assert (HaR : (0 <= IZR a)%R) by (apply IZR_le; lia).
  pose proof (pow2_pos (-51)) as Hp51. pose proof (pow2_pos (-41)) as Hp41.
  pose proof pow2_m51_m41 as H51. pose proof pow2_m44_m51 as H44.
  destruct mq as [| pq | pq]; [| | lia].
  { exists 0, (-44). split; [reflexivity |]. split; [lia |]. split; [lia |].
    unfold F2R in *. split; nra. }
  cbn [rounded SFmul xorb].
  assert (Hq1 : (F2R (Zpos pq) xq <= 1 + pow2 (-51))%R).
  { apply Rmult_le_reg_r with (IZR b); [assumption |]. nra. }
  assert (Hv : (F2R (Zpos (pq * 7036874417766400)) (xq + -46) <= pow2 7)%R).
  { rewrite Pos2Z.inj_mul, F2R_100.
    pose proof (pow2_le (-51) (-2) ltac:(lia)) as H. rewrite pow2_m2 in H.
    rewrite (pow2_IZR 7) by lia. change (2 ^ 7) with 128. lra. }
  destruct (binary_round_aux_value false (Zpos (pq * 7036874417766400)) (xq + -46)
              loc_Exact 7 ltac:(lia) ltac:(lia) ltac:(lia) Hv)
    as (mo & eo & -> & Hmo & Heo & Hlo' & Hhi').
  rewrite Pos2Z.inj_mul, F2R_100 in Hlo', Hhi'.
  exists mo, eo. split; [reflexivity |]. split; [assumption |]. split; [lia |].
  pose proof (pow2_le eo (-44) ltac:(lia)) as Hpe. pose proof (pow2_pos eo) as Hpeo.
  set (X := F2R mo eo) in *. set (Q := F2R (Zpos pq) xq) in *.
  set (A := IZR a) in *. set (B := IZR b) in *.
  set (u := pow2 (-51)) in *. set (w := pow2 eo) in *.
  rewrite H44 in Hpe. rewrite <- H51.
  assert (H1 : (X * B <= 100 * (Q * B) + w * B)%R) by nra.
  assert (H2 : (100 * (Q * B) - 2 * w * B < X * B)%R) by nra.
  assert (H3 : (w * B <= 128 * u * B)%R) by nra.
  split; nra.
Qed.

(** ** Formatting: the nearest tenth *)

Lemma round_half_even_near n d :
  0 < d -> 2 * Z.abs (round_half_even n d * d - n) <= d.
Proof.
  intro Hd. unfold round_half_even.
  pose proof (Z.div_mod n d ltac:(lia)) as Hdm.
  pose proof (Z.mod_pos_bound n d Hd) as Hr.
  destruct (Z.compare_spec (2 * (n mod d)) d); [destruct (Z.even (n / d)) | |]; nia.
Qed.

(** The tenths of a double with a negative exponent are ten times its value,
    rounded to a nearest integer. *)
Lemma tenths_near m e :
  e < 0 -> (- / 2 <= IZR (tenths m e) - 10 * F2R (Zpos m) e <= / 2)%R.
Proof.
  intro He. destruct e as [| p | p]; try lia. unfold tenths.
  pose proof (Z.pow_pos_nonneg 2 (Zpos p) ltac:(lia) ltac:(lia)) as Hd.
  pose proof (round_half_even_near (Zpos m * 10) (2 ^ Zpos p) Hd) as H.
  set (t := round_half_even (Zpos m * 10) (2 ^ Zpos p)) in *.
  pose proof (pow2_neg_pos (Zpos p)) as Hinv. cbn [Z.opp] in Hinv.
  pose proof (pow2_pos (Zneg p)) as Hpos.
  rewrite (pow2_IZR (Zpos p)) in Hinv by lia.
  assert (HD : (0 < IZR (2 ^ Zpos p))%R) by (apply IZR_lt; lia).
  unfold F2R. set (D := IZR (2 ^ Zpos p)) in *. set (w := pow2 (Zneg p)) in *.
  assert (H' : (- D <= 2 * (IZR t * D - IZR (Zpos m) * 10) <= D)%R).
  { unfold D. rewrite <- !mult_IZR, <- minus_IZR, <- (mult_IZR 2), <- opp_IZR.
    split; apply IZR_le; lia. }
  replace (IZR t - 10 * (IZR (Zpos m) * w))%R
    with ((IZR t * D - IZR (Zpos m) * 10) * w)%R
    by (transitivity (IZR t * (D * w) - IZR (Zpos m) * 10 * w)%R; [lra | rewrite Hinv; lra]).
  replace (/ 2)%R with (/ 2 * (D * w))%R by (rewrite Hinv; lra).
  split; nra.
Qed.

(** ** The aggregator's loops *)

Lemma int_truediv_counts a b :
  0 <= a <= b -> 0 < b ->
  int_truediv a b = Ok (SFdiv fprec femax (exact_int a) (exact_int b)).
Proof.
  intros Hab Hb. unfold int_truediv.
  destruct (Z.eqb_spec b 0); [lia |].
  pose proof (SFdiv_counts_finite a b Hab Hb) as Hfin.
  destruct (SFdiv fprec femax (exact_int a) (exact_int b)); try reflexivity.
  now destruct (Hfin s).
Qed.

Lemma coverage_value docs funcs :
  0 <= docs <= funcs ->
  coverage docs funcs =
  Ok (if funcs >? 0
      then PyFloat (SFmul fprec femax
                      (SFdiv fprec femax (exact_int docs) (exact_int funcs))
                      (float_of_int 100))
      else PyInt 0).
Proof.
  intro Hb. unfold coverage. rewrite Z.gtb_ltb.
  destruct (Z.ltb_spec 0 funcs); [| reflexivity].
  now rewrite int_truediv_counts.
Qed.

Lemma coverage_zero_total docs funcs : funcs <= 0 -> coverage docs funcs = Ok (PyInt 0).
Proof.
  intro H. unfold coverage. rewrite Z.gtb_ltb.
  destruct (Z.ltb_spec 0 funcs); [lia | reflexivity].
Qed.

(** The division is reached with a positive divisor only. *)
Lemma coverage_no_zero_division docs funcs :
  coverage docs funcs <> Raise ZeroDivisionError.
Proof.
  unfold coverage, int_truediv. rewrite Z.gtb_ltb.
  destruct (Z.ltb_spec 0 funcs); [| discriminate].
  destruct (Z.eqb_spec funcs 0); [lia |].
  destruct (SFdiv fprec femax (exact_int docs) (exact_int funcs)); discriminate.
Qed.

(** The printed percentage is [t / 10] for an integer [t] of tenths that is
    within [1/2 + 10^-10] of [1000 * docs / funcs]. *)
Lemma percentage_accuracy docs funcs :
  0 <= docs <= funcs -> 0 < funcs ->
  exists t,
    percentage docs funcs = int_text (t / 10) ++ str "." ++ int_text (t mod 10) /\
    2 * 10 ^ 10 * Z.abs (t * funcs - 1000 * docs) <= (10 ^ 10 + 2) * funcs.
Proof.
  intros Hb Hpos. unfold percentage. rewrite coverage_value by assumption.
  rewrite Z.gtb_ltb. destruct (Z.ltb_spec 0 funcs); [| lia]. cbn [format_1f].
  destruct (coverage_float_value docs funcs Hb Hpos) as (mp & xp & -> & Hmp & Hxp & Hlo & Hhi).
  assert (HfR : (0 < IZR funcs)%R) by (apply IZR_lt; lia).
  assert (HdR : (0 <= IZR docs)%R) by (apply IZR_le; lia).
  pose proof pow2_m41 as H41. pose proof (pow2_pos (-41)) as Hp41.
  assert (Hu : (pow2 (-41) * IZR funcs * 100000000000 <= IZR funcs)%R) by nra.
  change (10 ^ 10) with 10000000000.
  assert (HR : forall t : Z,
            (- / 2 <= IZR t - 10 * F2R mp xp <= / 2)%R ->
            2 * 10000000000 * Z.abs (t * funcs - 1000 * docs)
              <= (10000000000 + 2) * funcs).
  { intros t Ht.
    set (T := IZR t) in *. set (X := F2R mp xp) in *.
    set (A := IZR docs) in *. set (B := IZR funcs) in *.
    assert (H1 : (- B <= 2 * (T * B - 10 * (X * B)) <= B)%R) by (split; nra).
    assert (H2 : (- (10000000002 * B) <= 20000000000 * (T * B - 1000 * A)
                    <= 10000000002 * B)%R) by (split; nra).
    assert (H3 : - (10000000002 * funcs) <= 20000000000 * (t * funcs - 1000 * docs)
                   <= 10000000002 * funcs).
    { split; apply le_IZR;
        rewrite ?opp_IZR, ?mult_IZR, ?minus_IZR, ?mult_IZR; fold T A B; lra. }
    lia. }
  destruct mp as [| p | p]; [| | lia].
  - exists 0. split; [reflexivity |]. apply HR.
    unfold F2R. lra.
  - exists (tenths p xp). split; [reflexivity |]. apply HR.
    apply tenths_near. lia.
Qed.

Lemma analyze_file_bounds content :
  0 <= snd (analyze_file content) <= fst (analyze_file content).
Proof. apply analyze_lines_bounds. Qed.

Lemma sums_bounds es : 0 <= sum_docs es <= sum_funcs es.
Proof.
  unfold sum_docs, sum_funcs. induction es as [| e es IH]; cbn [List.map fold_right]; [lia |].
  pose proof (analyze_file_bounds (snd (snd e))). unfold entry_counts in *. lia.
Qed.

Lemma print_report out label docs funcs v :
  coverage docs funcs = Ok v ->
  print out (report label docs funcs v) = out ++ report_line label docs funcs.
Proof.
  intro Hv. unfold print, report, report_line, percentage. rewrite Hv.
  now rewrite <- !app_assoc.
Qed.

(** One entry: a file that qualifies adds its counts and its line, in any
    state; another file changes nothing. *)
Lemma visit_entry_spec st e :
  visit_entry st e =
  Ok (if qualifies e
      then mkState (total_funcs st + fst (entry_counts e))
                   (total_documented st + snd (entry_counts e))
                   (stdout st ++ file_line e)
      else st).
Proof.
  destruct e as [root [file content]].
  unfold visit_entry, visit_file, qualifies, file_line, entry_counts.
  cbn [fst snd].
  destruct (endswith file swift_ext); [| reflexivity].
  pose proof (analyze_file_bounds content) as Hb.
  destruct (analyze_file content) as [funcs docs]. cbn [fst snd] in *.
  pose proof (coverage_value docs funcs Hb) as Hv. rewrite Hv.
  cbn [bind]. now rewrite (print_report _ _ _ _ _ Hv).
Qed.

Lemma for_each_app {A : Type} (body : state -> A -> result state) l1 : forall l2 st,
  for_each body (l1 ++ l2) st = bind (for_each body l1 st) (for_each body l2).
Proof.
  induction l1 as [| x l1 IH]; intros l2 st; simpl; [reflexivity |].
  destruct (body st x); simpl; [apply IH | reflexivity].
Qed.

Lemma for_each_files root files : forall st,
  for_each visit_entry (List.map (pair root) files) st =
  for_each (visit_file root) files st.
Proof.
  induction files as [| f files IH]; intro st; simpl; [reflexivity |].
  unfold visit_entry at 1. simpl. destruct (visit_file root st f); simpl; auto.
Qed.

(** The two nested loops visit the entries one after the other. *)
Lemma for_each_entries walked : forall st,
  for_each visit_dir walked st = for_each visit_entry (entries walked) st.
Proof.
  induction walked as [| [[root dirs] files] walked IH]; intro st; simpl;
    [reflexivity |].
  rewrite for_each_app, for_each_files.
  destruct (for_each (visit_file root) files st); simpl; auto.
Qed.

Lemma for_each_visit_entry es : forall st,
  for_each visit_entry es st = Ok (after st es).
Proof.
  induction es as [| e es IH]; intro st; simpl.
  - unfold after. simpl. destruct st as [tf td out]. simpl.
    now rewrite !Z.add_0_r, app_nil_r.
  - rewrite visit_entry_spec. simpl. rewrite IH. f_equal.
    unfold after. simpl. destruct (qualifies e); simpl; [| reflexivity].
    unfold sum_funcs, sum_docs. simpl. rewrite <- app_assoc. f_equal; lia.
Qed.

(** The whole run: one line per qualifying entry, then the blank line and
    the overall line, computed from the sums. *)
Lemma run_spec walked :
  run walked =
  Ok (let qs := List.filter qualifies (entries walked) in
      mkState (sum_funcs qs) (sum_docs qs)
        (List.concat (List.map file_line qs) ++
         report_line (LF :: str "Overall") (sum_docs qs) (sum_funcs qs))).
Proof.
  unfold run. rewrite for_each_entries, for_each_visit_entry.
  cbn [bind]. unfold print_overall, after, initial.
  cbn [total_funcs total_documented stdout]. rewrite !Z.add_0_l, app_nil_l.
  pose proof (coverage_value _ _ (sums_bounds (List.filter qualifies (entries walked))))
    as Hv.
  rewrite Hv. cbn [bind]. now rewrite (print_report _ _ _ _ _ Hv).
Qed.

Lemma Permutation_filter' {A : Type} (f : A -> bool) l l' :
  Permutation l l' -> Permutation (List.filter f l) (List.filter f l').
Proof.
  induction 1 as [| x l l' _ IH | x y l | l l' l'' _ IH1 _ IH2]; simpl.
  - constructor.
  - destruct (f x); [now constructor | assumption].
  - destruct (f x), (f y); try apply Permutation_refl. constructor.
  - eapply Permutation_trans; eassumption.
Qed.

Lemma sum_Permutation (l l' : list Z) :
  Permutation l l' -> fold_right Z.add 0 l = fold_right Z.add 0 l'.
Proof.
  induction 1 as [| x l l' _ IH | x y l | l l' l'' _ IH1 _ IH2]; simpl; lia.
Qed.

Lemma NoDup_func_lines lines : NoDup (func_lines lines).
Proof.
  rewrite func_lines_filter. unfold enumerate. generalize 0 as k.
  induction lines as [| x lines IH]; intro k; simpl; [constructor |].
  assert (Hk : ~ In k (List.map fst
                 (List.filter (fun p => is_declaration (snd p))
                    (enumerate_from (k + 1) lines)))).
  { intro H. apply in_map_iff in H as ([j y] & E & H). simpl in E. subst j.
    apply filter_In in H as [H _]. apply In_enumerate_from in H. lia. }
  destruct (is_declaration x); simpl; [constructor; [assumption |] |]; apply IH.
Qed.

Lemma filter_none {A : Type} (f : A -> bool) (l : list A) :
  (forall x, In x l -> f x = false) -> List.filter f l = [].
Proof.
  induction l as [| x l IH]; intro H; simpl; [reflexivity |].
  rewrite (H x) by now left. apply IH. intros y Hy. apply H. now right.
Qed.

(** * The claims *)

(** C1 (amended).  A line is classified as a declaration exactly when it
    consists of leading whitespace, an optional visibility keyword (public,
    private, internal, fileprivate) followed by whitespace, an optional
    [static] followed by whitespace, and then either [func], whitespace and
    an identifier, or [init], any amount of whitespace (possibly none) and an
    opening parenthesis; what follows is ignored.  The line
    [public static func bar() {] is a declaration. *)
Theorem declaration_pattern :
  (forall line, is_declaration line = true <-> declaration line) /\
  is_declaration (str "public static func bar() {") = true /\
  is_declaration (str "public static func bar() {" ++ [LF]) = true.
Proof.
  split; [exact is_declaration_iff |]. split; vm_compute; reflexivity.
Qed.


(** C2.  [analyze] returns the number of detected declarations and the
    number of those whose window has the marker; the detected declarations
    are the indices of the matching lines, each once; and the declaration at
    index [i] is documented exactly when some line with index in
    [max(0, i-10), i) contains [///] somewhere.  A marker on line 0 does not
    document a declaration on line 11. *)
Theorem documented_window lines :
  analyze_lines lines =
    (Z.of_nat (List.length (func_lines lines)),
     Z.of_nat (List.length (List.filter (has_doc lines) (func_lines lines)))) /\
  NoDup (func_lines lines) /\
  (forall i, In i (func_lines lines) <->
             exists line, 0 <= i /\ nth_error lines (Z.to_nat i) = Some line /\
                          is_declaration line = true) /\
  (forall i, In i (func_lines lines) ->
     (has_doc lines i = true <->
      exists j line, Z.max 0 (i - 10) <= j < i /\
                     nth_error lines (Z.to_nat j) = Some line /\
                     exists pre post, line = pre ++ str "///" ++ post)) /\
  ((forall j line, 0 <= j -> nth_error lines (Z.to_nat j) = Some line ->
                   contains doc_marker line = true -> j = 0) ->
   has_doc lines 11 = false) /\
  analyze_file (str "/// doc" ++ repeat LF 11 ++ str "func foo() {}" ++ [LF]) = (1, 0).
Proof.
  split.
  { unfold analyze_lines. now rewrite count_documented_filter. }
  split; [apply NoDup_func_lines |].
  split; [intro i; apply In_func_lines |].
  split.
  { intros i Hi. apply In_func_lines in Hi as (l0 & Hi & _).
    rewrite has_doc_iff by assumption.
    split; intros (j & line & Hj & Hn & Hc); exists j, line;
      (split; [assumption |]); (split; [assumption |]);
      now apply (contains_iff doc_marker). }
  split; [| vm_compute; reflexivity].
  intro Honly. destruct (has_doc lines 11) eqn:Hd; [| reflexivity].
  apply has_doc_iff in Hd as (j & line & Hj & Hn & Hc); [| lia].
  assert (j = 0) by (apply (Honly j line); [lia | assumption | assumption]). lia.
Qed.

(** C7.  The window of a declaration at line index 0 is empty, so that
    declaration is never among the documented ones. *)
Theorem first_line_undocumented lines :
  prev_lines lines 0 = [] /\
  has_doc lines 0 = false /\
  ~ In 0 (List.filter (has_doc lines) (func_lines lines)) /\
  analyze_file (str "func foo() {}" ++ [LF]) = (1, 0).
Proof.
  assert (H0 : has_doc lines 0 = false).
  { unfold has_doc. now rewrite prev_lines_0. }
  split; [apply prev_lines_0 |]. split; [assumption |].
  split; [| vm_compute; reflexivity].
  intro H. apply filter_In in H as [_ H]. congruence.
Qed.

(** C10.  Appending lines keeps the declarations already found, with their
    documented status, and only adds declarations at later indices; so
    neither count decreases. *)
Theorem append_lines_monotone L S :
  (exists later,
      func_lines (L ++ S) = func_lines L ++ later /\
      Forall (fun i => Z.of_nat (List.length L) <= i) later) /\
  (forall i, In i (func_lines L) -> has_doc (L ++ S) i = has_doc L i) /\
  fst (analyze_lines L) <= fst (analyze_lines (L ++ S)) /\
  snd (analyze_lines L) <= snd (analyze_lines (L ++ S)).
Proof.
  assert (Hsame : forall i, In i (func_lines L) -> has_doc (L ++ S) i = has_doc L i).
  { intros i Hi. apply In_func_lines in Hi as (line & Hi & Hn & _).
    assert ((Z.to_nat i < List.length L)%nat) by (apply nth_error_Some; congruence).
    unfold has_doc. rewrite prev_lines_app by lia. reflexivity. }
  split.
  { eexists. split; [apply func_lines_app |].
    apply Forall_forall. intros i Hi.
    apply in_map_iff in Hi as ([j y] & E & Hi). simpl in E. subst j.
    apply filter_In in Hi as [Hi _]. now apply In_enumerate_from in Hi. }
  split; [exact Hsame |].
  unfold analyze_lines. cbn [fst snd].
  rewrite !count_documented_filter, func_lines_app, filter_app, !length_app.
  rewrite (filter_ext_in (has_doc (L ++ S)) (has_doc L) (func_lines L) Hsame).
  lia.
Qed.

(** C3.  The counts of a file satisfy [0 <= documented <= total], and so do
    the running totals after each file of the run, and at its end. *)
Theorem counts_invariant :
  (forall content, 0 <= snd (analyze_file content) <= fst (analyze_file content)) /\
  (forall walked,
      for_each visit_dir walked initial =
      for_each visit_entry (entries walked) initial) /\
  (forall walked n, exists st,
      for_each visit_entry (firstn n (entries walked)) initial = Ok st /\
      0 <= total_documented st <= total_funcs st) /\
  (forall walked, exists st,
      run walked = Ok st /\ 0 <= total_documented st <= total_funcs st).
Proof.
  split; [exact analyze_file_bounds |].
  split; [intro walked; apply for_each_entries |].
  split.
  - intros walked n. eexists. split; [apply for_each_visit_entry |].
    unfold after, initial. cbn [total_funcs total_documented].
    pose proof (sums_bounds (List.filter qualifies (firstn n (entries walked)))). lia.
  - intro walked. eexists. split; [apply run_spec |].
    cbn [total_funcs total_documented].
    apply sums_bounds.
Qed.

(** C4.  Computing a percentage never divides by zero, and for counts
    [0 <= documented <= total] it raises nothing; for a positive total it is
    [documented / total * 100] in double precision, printed with one digit
    after the point, and otherwise it is printed as [0.0].  The printed text
    is tied to the value: it is the decimal [t / 10] of a number of tenths
    [0 <= t <= 1000] that differs from the exact [1000 * documented / total]
    by at most [1/2 + 10^-10], and by at most [1/2] (so that [t / 10] is
    [documented / total * 100] rounded to a nearest tenth) for every total
    below [5 * 10^9]; where the exact value lies halfway between two
    tenths, the rounding errors of the division and of the product decide.
    So 0 of 0 gives [0.0], 1 of 3 gives [33.3], 2 of 3 gives [66.7], and
    23 of 80, whose exact percentage is 28.75, gives [28.7].  These are the
    percentages of the per-file lines and of the overall line, whose counts
    satisfy [0 <= documented <= total]. *)
Theorem percentage_printed :
  (forall docs funcs, coverage docs funcs <> Raise ZeroDivisionError) /\
  (forall docs funcs, 0 <= docs <= funcs -> exists v, coverage docs funcs = Ok v) /\
  (forall docs funcs, 0 <= docs <= funcs -> 0 < funcs ->
     int_truediv docs funcs =
       Ok (SFdiv fprec femax (exact_int docs) (exact_int funcs)) /\
     percentage docs funcs =
       float_format_1f
         (SFmul fprec femax
            (SFdiv fprec femax (exact_int docs) (exact_int funcs))
            (float_of_int 100))) /\
  (forall docs funcs, funcs <= 0 -> percentage docs funcs = str "0.0") /\
  percentage 0 0 = str "0.0" /\
  percentage 1 3 = str "33.3" /\
  (forall walked, exists st,
     run walked = Ok st /\
     stdout st =
       List.concat
         (List.map
            (fun e => report_line (basename (path_join (fst e) (fst (snd e))))
                        (snd (entry_counts e)) (fst (entry_counts e)))
            (List.filter qualifies (entries walked))) ++
       report_line (LF :: str "Overall")
         (sum_docs (List.filter qualifies (entries walked)))
         (sum_funcs (List.filter qualifies (entries walked)))) /\
  (forall docs funcs, 0 <= docs <= funcs -> 0 < funcs ->
     exists t,
       percentage docs funcs = int_text (t / 10) ++ str "." ++ int_text (t mod 10) /\
       0 <= t <= 1000 /\
       2 * 10 ^ 10 * Z.abs (t * funcs - 1000 * docs) <= (10 ^ 10 + 2) * funcs /\
       (funcs < 5 * 10 ^ 9 -> 2 * Z.abs (t * funcs - 1000 * docs) <= funcs)) /\
  percentage 2 3 = str "66.7" /\
  percentage 23 80 = str "28.7" /\
  (forall e, 0 <= snd (entry_counts e) <= fst (entry_counts e)) /\
  (forall es, 0 <= sum_docs es <= sum_funcs es).
Proof.
  split; [exact coverage_no_zero_division |].
  split; [intros docs funcs Hb; eexists; now apply coverage_value |].
  split.
  { intros docs funcs Hb Hpos. split; [now apply int_truediv_counts |].
    unfold percentage. rewrite coverage_value by assumption. rewrite Z.gtb_ltb.
    destruct (Z.ltb_spec 0 funcs); [reflexivity | lia]. }
  split.
  { intros docs funcs Hle. unfold percentage.
    rewrite coverage_zero_total by assumption. vm_compute. reflexivity. }
  split; [vm_compute; reflexivity |].
  split; [vm_compute; reflexivity |].
  split; [intro walked; eexists; split; [apply run_spec | reflexivity] |].
  split.
  { intros docs funcs Hb Hpos.
    destruct (percentage_accuracy docs funcs Hb Hpos) as (t & Ht & Hacc).
    exists t. split; [assumption |].
    change (10 ^ 10) with 10000000000 in *. change (10 ^ 9) with 1000000000.
    split; [nia |]. split; [assumption | lia]. }
  split; [vm_compute; reflexivity |].
  split; [vm_compute; reflexivity |].
  split; [intro e; apply analyze_file_bounds | exact sums_bounds].
Qed.

(** C5.  The output is one line [<filename>: <documented>/<total>
    (<percentage>%)] per qualifying file, in the order of the walk, where
    <filename> is the base name of the path and has no directory component,
    then a blank line and [Overall: <documented>/<total> (<percentage>%)]
    with the sums of the per-file counts. *)
Theorem report_format :
  (forall walked, exists st,
     run walked = Ok st /\
     stdout st =
       List.concat
         (List.map
            (fun e =>
               basename (path_join (fst e) (fst (snd e))) ++ str ": " ++
               int_text (snd (entry_counts e)) ++ str "/" ++
               int_text (fst (entry_counts e)) ++ str " (" ++
               percentage (snd (entry_counts e)) (fst (entry_counts e)) ++
               str "%)" ++ [LF])
            (List.filter qualifies (entries walked))) ++
       [LF] ++ str "Overall: " ++
       int_text (sum_docs (List.filter qualifies (entries walked))) ++ str "/" ++
       int_text (sum_funcs (List.filter qualifies (entries walked))) ++ str " (" ++
       percentage (sum_docs (List.filter qualifies (entries walked)))
                  (sum_funcs (List.filter qualifies (entries walked))) ++
       str "%)" ++ [LF]) /\
  (forall p, ~ In SEP (basename p)) /\
  (forall root file, ~ In SEP file -> basename (path_join root file) = file).
Proof.
  split; [| split; [exact basename_no_sep | exact basename_path_join]].
  intro walked. eexists. split; [apply run_spec | reflexivity].
Qed.

(** C6 (amended).  When no file of the tree has a name ending in [.swift],
    the whole output is a blank line followed by the line
    [Overall: 0/0 (0.0%)]. *)
Theorem output_without_swift_files fs :
  (forall e, In e (entries (scanned fs)) -> qualifies e = false) ->
  exists st, main fs = Ok st /\
             stdout st = LF :: str "Overall: 0/0 (0.0%)" ++ [LF].
Proof.
  intro Hnone. unfold main. eexists. split; [apply run_spec |].
  cbn zeta. rewrite (filter_none _ _ Hnone). vm_compute. reflexivity.
Qed.

(** C8.  What a file contributes (its line and its counts) is a function of
    that file alone, whatever the state of the run; visiting the same files
    in another order prints the same lines in that other order and ends with
    the same totals; and two runs over one tree end with the same output. *)
Theorem order_independence :
  (forall st e, exists st',
     visit_entry st e = Ok st' /\
     stdout st' = stdout st ++ (if qualifies e then file_line e else []) /\
     total_funcs st' =
       total_funcs st + (if qualifies e then fst (analyze_file (snd (snd e))) else 0) /\
     total_documented st' =
       total_documented st + (if qualifies e then snd (analyze_file (snd (snd e))) else 0)) /\
  (forall es es', Permutation es es' ->
     for_each visit_entry es initial = Ok (after initial es) /\
     for_each visit_entry es' initial = Ok (after initial es') /\
     stdout (after initial es) = List.concat (List.map file_line (List.filter qualifies es)) /\
     stdout (after initial es') = List.concat (List.map file_line (List.filter qualifies es')) /\
     Permutation (List.map file_line (List.filter qualifies es))
                 (List.map file_line (List.filter qualifies es')) /\
     total_funcs (after initial es) = total_funcs (after initial es') /\
     total_documented (after initial es) = total_documented (after initial es')) /\
  (forall fs st1 st2, main fs = Ok st1 -> main fs = Ok st2 -> stdout st1 = stdout st2).
Proof.
  split.
  { intros st e. eexists. split; [apply visit_entry_spec |].
    unfold entry_counts. destruct (qualifies e); cbn [stdout total_funcs total_documented].
    - repeat split.
    - rewrite app_nil_r, !Z.add_0_r. repeat split. }
  split.
  { intros es es' Hperm.
    pose proof (Permutation_filter' qualifies _ _ Hperm) as Hq.
    split; [apply for_each_visit_entry |]. split; [apply for_each_visit_entry |].
    unfold after, initial. cbn [stdout total_funcs total_documented].
    split; [reflexivity |]. split; [reflexivity |].
    split; [now apply Permutation_map |].
    unfold sum_funcs, sum_docs.
    split; f_equal; apply sum_Permutation; now apply Permutation_map. }
  intros fs st1 st2 H1 H2. congruence.
Qed.

(** * Further properties *)

(** ** The pattern: what it ignores and what it requires *)

Lemma re_match_app r s t : re_match r s = true -> re_match r (s ++ t) = true.
Proof.
  rewrite !re_match_iff. intros (p & q & -> & H).
  exists p, (q ++ t). split; [now rewrite app_assoc | assumption].
Qed.

Lemma blank_app a b : blank (a ++ b) <-> blank a /\ blank b.
Proof. unfold blank. rewrite forallb_app. apply andb_true_iff. Qed.

(** After the leading whitespace a declaration goes on with one of the
    letters p, i, f, s. *)
Lemma declaration_head vis st c rest :
  optional visibility vis -> optional (keyword "static") st ->
  func_ident c \/ init_blank_paren c ->
  exists x t, vis ++ st ++ c ++ rest = x :: t /\
              (x = 112 \/ x = 105 \/ x = 102 \/ x = 115)%N.
Proof.
  intros Hvis Hst Hc.
  destruct Hvis as [-> | [(sp & -> & _) | [(sp & -> & _) | [(sp & -> & _) | (sp & -> & _)]]]];
    try (eexists; eexists; split; [reflexivity | tauto]).
  destruct Hst as [-> | (sp & -> & _)];
    try (eexists; eexists; split; [reflexivity | tauto]).
  destruct Hc as [(sp & id & -> & _) | (sp & -> & _)];
    eexists; eexists; (split; [reflexivity | tauto]).
Qed.

(** Two ways of cutting a text after leading whitespace, before a character
    that is no whitespace, cut at the same place when the first part is all
    whitespace too. *)
Lemma blank_prefix_split sp : forall line lead x t,
  blank sp -> blank lead -> is_space x = false ->
  sp ++ line = lead ++ x :: t ->
  exists lead', lead = sp ++ lead' /\ line = lead' ++ x :: t.
Proof.
  induction sp as [| a sp IH]; intros line lead x t Hsp Hlead Hx E; simpl in E.
  - now exists lead.
  - unfold blank in Hsp. simpl in Hsp. apply andb_true_iff in Hsp as [Ha Hsp].
    destruct lead as [| b lead]; simpl in E.
    + injection E as -> _. congruence.
    + injection E as -> E. unfold blank in Hlead. simpl in Hlead.
      apply andb_true_iff in Hlead as [_ Hlead].
      destruct (IH line lead x t Hsp Hlead Hx E) as (lead' & -> & ->).
      now exists lead'.
Qed.

Lemma first_letter_no_space x :
  (x = 112 \/ x = 105 \/ x = 102 \/ x = 115)%N -> is_space x = false.
Proof. intros [-> | [-> | [-> | ->]]]; reflexivity. Qed.

(** X1.  What follows a declaration on its line is ignored: a line that is
    classified as a declaration stays one whatever is appended to it. *)
Theorem declaration_ignores_trailing line rest :
  is_declaration line = true -> is_declaration (line ++ rest) = true.
Proof. apply re_match_app. Qed.

(** X2.  Indentation does not matter: whitespace put in front of a line does
    not change whether the line is a declaration. *)
Theorem declaration_ignores_indentation sp line :
  blank sp -> is_declaration (sp ++ line) = is_declaration line.
Proof.
  intro Hsp. apply eq_iff_eq_true. rewrite !is_declaration_iff. split.
  - intros (lead & vis & st & c & rest & E & Hlead & Hvis & Hst & Hc).
    destruct (declaration_head vis st c rest Hvis Hst Hc) as (x & t & Et & Hx).
    rewrite Et in E.
    destruct (blank_prefix_split sp line lead x t Hsp Hlead
                (first_letter_no_space x Hx) E) as (lead' & -> & ->).
    exists lead', vis, st, c, rest. rewrite <- Et.
    split; [reflexivity |]. split; [now apply blank_app in Hlead |].
    repeat split; assumption.
  - intros (lead & vis & st & c & rest & -> & Hlead & Hvis & Hst & Hc).
    exists (sp ++ lead), vis, st, c, rest.
    split; [now rewrite <- app_assoc |]. split; [now apply blank_app |].
    repeat split; assumption.
Qed.

(** X3.  A line whose first character after the leading whitespace is none
    of p, i, f, s is never a declaration; so a comment line, which starts
    with a slash, is never counted as one. *)
Theorem declaration_first_letter lead c rest :
  blank lead -> is_space c = false ->
  c <> 112%N -> c <> 105%N -> c <> 102%N -> c <> 115%N ->
  is_declaration (lead ++ c :: rest) = false.
Proof.
  intros Hlead Hc Hp Hi Hf Hs.
  destruct (is_declaration (lead ++ c :: rest)) eqn:Hd; [| reflexivity].
  apply is_declaration_iff in Hd
    as (lead2 & vis & st & core & rest2 & E & Hlead2 & Hvis & Hst & Hcore).
  destruct (declaration_head vis st core rest2 Hvis Hst Hcore) as (x & t & Et & Hx).
  rewrite Et in E.
  destruct (blank_prefix_split lead (c :: rest) lead2 x t Hlead Hlead2
              (first_letter_no_space x Hx) E) as (lead' & -> & E').
  destruct lead' as [| y lead']; simpl in E'.
  - injection E' as -> _. destruct Hx as [Hx | [Hx | [Hx | Hx]]]; congruence.
  - injection E' as <- _. apply blank_app in Hlead2 as [_ Hbl].
    unfold blank in Hbl. simpl in Hbl. apply andb_true_iff in Hbl as [Hy _]. congruence.
Qed.

(** ** The analyzer: indices and windows *)

Lemma length_enumerate_from {A : Type} (l : list A) : forall k,
  List.length (enumerate_from k l) = List.length l.
Proof. induction l as [| x l IH]; intro k; simpl; [reflexivity | now rewrite IH]. Qed.

Lemma func_lines_from_sorted lines : forall k,
  StronglySorted Z.lt
    (List.map fst (List.filter (fun p => is_declaration (snd p))
                     (enumerate_from k lines))).
Proof.
  induction lines as [| x lines IH]; intro k; simpl; [constructor |].
  destruct (is_declaration x); simpl; [| apply IH].
  constructor; [apply IH |].
  apply Forall_forall. intros i Hi.
  apply in_map_iff in Hi as ([j y] & E & Hi). simpl in E. subst j.
  apply filter_In in Hi as [Hi _]. apply In_enumerate_from in Hi. lia.
Qed.

(** X4.  The declarations are found in the order of the file: their indices
    are strictly increasing and lie inside the file, so [total] is at most
    the number of lines. *)
Theorem func_lines_in_file_order lines :
  StronglySorted Z.lt (func_lines lines) /\
  (forall i, In i (func_lines lines) -> 0 <= i < Z.of_nat (List.length lines)) /\
  0 <= fst (analyze_lines lines) <= Z.of_nat (List.length lines).
Proof.
  split; [rewrite func_lines_filter; apply func_lines_from_sorted |].
  split.
  - intros i Hi. apply In_func_lines in Hi as (line & Hi & Hn & _).
    assert ((Z.to_nat i < List.length lines)%nat) by (apply nth_error_Some; congruence).
    lia.
  - unfold analyze_lines. cbn [fst]. rewrite func_lines_filter, length_map.
    pose proof (filter_length_le (fun p => is_declaration (snd p)) (enumerate lines)) as H.
    unfold enumerate in H at 2. rewrite length_enumerate_from in H. lia.
Qed.

(** X5.  The window of a line inside the file has ten lines, or all the
    lines before it when there are fewer than ten. *)
Theorem window_size lines i :
  0 <= i <= Z.of_nat (List.length lines) ->
  List.length (prev_lines lines i) = Z.to_nat (Z.min i 10).
Proof.
  intro Hi. unfold prev_lines, slice, slice_bound.
  destruct (Z.ltb_spec (Z.max 0 (i - 10)) 0); [lia |].
  destruct (Z.ltb_spec i 0); [lia |].
  rewrite length_firstn, length_skipn. lia.
Qed.

(** X6.  Whether the declaration at index [i] is documented depends on the
    (up to) ten lines before it only: two files that agree on those lines
    agree on it, whatever line [i] itself and the other lines are. *)
Theorem has_doc_local lines lines' i :
  0 <= i ->
  (forall j, Z.max 0 (i - 10) <= j < i ->
             nth_error lines (Z.to_nat j) = nth_error lines' (Z.to_nat j)) ->
  has_doc lines i = has_doc lines' i.
Proof.
  intros Hi Hsame. apply eq_iff_eq_true. rewrite !has_doc_iff by assumption.
  split; intros (j & line & Hj & Hn & Hc); exists j, line;
    (split; [assumption |]); (split; [| assumption]).
  - now rewrite <- Hsame.
  - now rewrite Hsame.
Qed.

(** X7.  One documentation comment serves every declaration near it: when
    line [j] contains the marker, each of the ten lines after it is
    documented (overlapping windows are not told apart). *)
Theorem marker_documents_next_ten lines j line i :
  0 <= j -> nth_error lines (Z.to_nat j) = Some line ->
  contains doc_marker line = true ->
  j < i <= j + 10 -> has_doc lines i = true.
Proof.
  intros Hj Hn Hc Hi. apply has_doc_iff; [lia |].
  exists j, line. split; [lia |]. split; assumption.
Qed.

(** ** The analyzer on a file made of two parts *)

Lemma func_lines_from_shift lines : forall k d,
  List.map fst (List.filter (fun p => is_declaration (snd p))
                  (enumerate_from (k + d) lines)) =
  List.map (Z.add d)
    (List.map fst (List.filter (fun p => is_declaration (snd p))
                     (enumerate_from k lines))).
Proof.
  induction lines as [| x lines IH]; intros k d; simpl; [reflexivity |].
  replace (k + d + 1) with (k + 1 + d) by lia.
  destruct (is_declaration x); simpl; rewrite IH; [| reflexivity].
  f_equal. lia.
Qed.

Lemma func_lines_concat L1 L2 :
  func_lines (L1 ++ L2) =
  func_lines L1 ++ List.map (Z.add (Z.of_nat (List.length L1))) (func_lines L2).
Proof.
  rewrite func_lines_app. f_equal. rewrite (func_lines_filter L2). unfold enumerate.
  now rewrite <- func_lines_from_shift.
Qed.

Lemma has_doc_shift L1 L2 i :
  0 <= i -> has_doc L2 i = true ->
  has_doc (L1 ++ L2) (Z.of_nat (List.length L1) + i) = true.
Proof.
  intros Hi H. apply has_doc_iff in H as (j & line & Hj & Hn & Hc); [| assumption].
  apply has_doc_iff; [lia |].
  exists (Z.of_nat (List.length L1) + j), line. split; [lia |]. split; [| assumption].
  rewrite nth_error_app2 by lia.
  now replace (Z.to_nat (Z.of_nat (List.length L1) + j) - List.length L1)%nat
    with (Z.to_nat j) by lia.
Qed.

Lemma has_doc_unshift L1 L2 i :
  0 <= i ->
  (forall line, In line (prev_lines L1 (Z.of_nat (List.length L1))) ->
                contains doc_marker line = false) ->
  has_doc (L1 ++ L2) (Z.of_nat (List.length L1) + i) = true ->
  has_doc L2 i = true.
Proof.
  intros Hi Hclean H. apply has_doc_iff in H as (j & line & Hj & Hn & Hc); [| lia].
  destruct (Z.lt_ge_cases j (Z.of_nat (List.length L1))) as [Hlt | Hge].
  - rewrite nth_error_app1 in Hn by lia.
    rewrite (Hclean line) in Hc; [discriminate |].
    unfold prev_lines. apply In_slice; [lia | lia |]. exists j. split; [lia | assumption].
  - apply has_doc_iff; [assumption |].
    exists (j - Z.of_nat (List.length L1)), line. split; [lia |]. split; [| assumption].
    rewrite nth_error_app2 in Hn by lia.
    now replace (Z.to_nat (j - Z.of_nat (List.length L1)))
      with (Z.to_nat j - List.length L1)%nat by lia.
Qed.

Lemma filter_length_map_le {A B : Type} (f : A -> B) (h : A -> bool) (g : B -> bool) l :
  (forall x, In x l -> h x = true -> g (f x) = true) ->
  (List.length (List.filter h l) <= List.length (List.filter g (List.map f l)))%nat.
Proof.
  induction l as [| x l IH]; intro H; simpl; [lia |].
  assert (IH' := IH (fun y Hy => H y (or_intror Hy))).
  pose proof (H x (or_introl eq_refl)) as Hx.
  destruct (h x); simpl.
  - rewrite Hx by reflexivity. simpl. lia.
  - destruct (g (f x)); simpl; lia.
Qed.

Lemma filter_length_map_eq {A B : Type} (f : A -> B) (h : A -> bool) (g : B -> bool) l :
  (forall x, In x l -> g (f x) = h x) ->
  List.length (List.filter g (List.map f l)) = List.length (List.filter h l).
Proof.
  induction l as [| x l IH]; intro H; simpl; [reflexivity |].
  rewrite (H x (or_introl eq_refl)).
  pose proof (IH (fun y Hy => H y (or_intror Hy))) as IH'.
  destruct (h x); simpl; now rewrite IH'.
Qed.

Lemma has_doc_first_part L1 L2 :
  List.filter (has_doc (L1 ++ L2)) (func_lines L1) = List.filter (has_doc L1) (func_lines L1).
Proof.
  apply filter_ext_in. intros i Hi. apply In_func_lines in Hi as (line & Hi & Hn & _).
  assert ((Z.to_nat i < List.length L1)%nat) by (apply nth_error_Some; congruence).
  unfold has_doc. now rewrite prev_lines_app by lia.
Qed.

(** X8.  For a file made of two parts, [total] is the sum of the totals of
    the parts, and [documented] is at least the sum of theirs (a comment at
    the end of the first part may serve declarations of the second). *)
Theorem analyze_two_parts L1 L2 :
  fst (analyze_lines (L1 ++ L2)) = fst (analyze_lines L1) + fst (analyze_lines L2) /\
  snd (analyze_lines L1) + snd (analyze_lines L2) <= snd (analyze_lines (L1 ++ L2)).
Proof.
  unfold analyze_lines. cbn [fst snd].
  rewrite !count_documented_filter, func_lines_concat, filter_app, !length_app,
    length_map, has_doc_first_part.
  split; [lia |].
  pose proof (filter_length_map_le (Z.add (Z.of_nat (List.length L1)))
                (has_doc L2) (has_doc (L1 ++ L2)) (func_lines L2)) as H.
  assert (Hle : (List.length (List.filter (has_doc L2) (func_lines L2)) <=
                 List.length (List.filter (has_doc (L1 ++ L2))
                   (List.map (Z.add (Z.of_nat (List.length L1))) (func_lines L2))))%nat).
  { apply H. intros i Hi Hd. apply In_func_lines in Hi as (line & Hi & _).
    now apply has_doc_shift. }
  lia.
Qed.

(** X9.  When none of the last ten lines of the first part contains the
    marker, both counts of the whole file are the sums of the counts of the
    two parts. *)
Theorem analyze_two_parts_exact L1 L2 :
  (forall line, In line (prev_lines L1 (Z.of_nat (List.length L1))) ->
                contains doc_marker line = false) ->
  analyze_lines (L1 ++ L2) =
  (fst (analyze_lines L1) + fst (analyze_lines L2),
   snd (analyze_lines L1) + snd (analyze_lines L2)).
Proof.
  intro Hclean. unfold analyze_lines. cbn [fst snd].
  rewrite !count_documented_filter, func_lines_concat, filter_app, !length_app,
    length_map, has_doc_first_part.
  rewrite (filter_length_map_eq (Z.add (Z.of_nat (List.length L1)))
             (has_doc L2) (has_doc (L1 ++ L2)) (func_lines L2)).
  - f_equal; lia.
  - intros i Hi. apply In_func_lines in Hi as (line & Hi & _).
    apply eq_iff_eq_true. split.
    + now apply has_doc_unshift.
    + now apply has_doc_shift.
Qed.

(** X10.  When every declaration has a line with the marker right before
    it, every declaration is documented: [documented = total]. *)
Theorem documented_when_commented lines :
  (forall i, In i (func_lines lines) ->
     exists line, 1 <= i /\ nth_error lines (Z.to_nat (i - 1)) = Some line /\
                  contains doc_marker line = true) ->
  snd (analyze_lines lines) = fst (analyze_lines lines).
Proof.
  intro Hall. unfold analyze_lines. cbn [fst snd]. rewrite count_documented_filter.
  do 2 f_equal. apply forallb_filter_id. apply forallb_forall.
  intros i Hi. destruct (Hall i Hi) as (line & H1 & Hn & Hc).
  apply has_doc_iff; [lia |]. exists (i - 1), line. split; [lia |]. now split.
Qed.

Lemma contains_in_concat sub line : forall ls,
  In line ls -> contains sub line = true -> contains sub (List.concat ls) = true.
Proof.
  intros ls Hin Hc. apply in_split in Hin as (a & b & ->).
  apply contains_iff in Hc as (pre & post & ->). apply contains_iff.
  exists (List.concat a ++ pre), (post ++ List.concat b).
  rewrite concat_app. simpl. now rewrite <- !app_assoc.
Qed.

(** X11.  A file whose text does not contain the marker has no documented
    declaration. *)
Theorem no_marker_no_documented content :
  contains doc_marker content = false -> snd (analyze_file content) = 0.
Proof.
  intro Hno. unfold analyze_file, analyze_lines. cbn [snd].
  rewrite count_documented_filter.
  rewrite (filter_none (has_doc (readlines content)) (func_lines (readlines content)));
    [reflexivity |].
  intros i Hi. destruct (has_doc (readlines content) i) eqn:Hd; [| reflexivity].
  apply In_func_lines in Hi as (l0 & Hi & _).
  apply has_doc_iff in Hd as (j & line & _ & Hn & Hc); [| assumption].
  apply nth_error_In in Hn.
  pose proof (contains_in_concat doc_marker line (readlines content) Hn Hc) as H.
  rewrite concat_readlines in H. congruence.
Qed.

(** ** Reading lines *)




(** ** The two ends of the percentage scale *)

Lemma div_eucl_mul_same (p : positive) (k : Z) :
  Z.div_eucl (Zpos p * k) (Zpos p) = (k, 0).
Proof.
  pose proof (Z.div_mul k (Zpos p) ltac:(lia)) as Hq.
  pose proof (Z.mod_mul k (Zpos p) ltac:(lia)) as Hr.
  rewrite (Z.mul_comm k) in Hq, Hr. unfold Z.div, Z.modulo in Hq, Hr.
  destruct (Z.div_eucl (Zpos p * k) (Zpos p)) as [q r]. congruence.
Qed.

Lemma new_location_exact n : new_location n 0 = loc_Exact.
Proof. unfold new_location. destruct (Z.even n); reflexivity. Qed.

(** A count divided by itself is exactly one. *)
Lemma SFdiv_same p :
  SFdiv fprec femax (S754_finite false p 0) (S754_finite false p 0) =
  S754_finite false 4503599627370496 (-52).
Proof.
  unfold SFdiv, SFdiv_core_binary. cbv zeta.
  replace (Zdigits2 (Zpos p) + 0 - (Zdigits2 (Zpos p) + 0)) with 0 by lia.
  change (Z.min (fexp fprec femax 0) (0 - 0)) with (-53).
  change (0 - 0 - -53) with 53. cbv beta iota.
  rewrite Z.shiftl_mul_pow2 by lia.
  rewrite div_eucl_mul_same, new_location_exact.
  vm_compute. reflexivity.
Qed.

(** X13.  Nothing documented is printed as [0.0], whatever the total, and a
    positive total that is documented completely is printed as [100.0]. *)
Theorem percentage_endpoints :
  (forall funcs, percentage 0 funcs = str "0.0") /\
  (forall n, 0 < n -> percentage n n = str "100.0").
Proof.
  split.
  - intros [| p | p]; vm_compute; reflexivity.
  - intros [| p | p] Hn; try lia.
    unfold percentage. rewrite coverage_value by lia.
    change (Zpos p >? 0) with true. cbv iota.
    unfold exact_int. rewrite SFdiv_same. vm_compute. reflexivity.
Qed.

(** ** The run: what it keeps and what it ignores *)

Lemma sum_funcs_app a b : sum_funcs (a ++ b) = sum_funcs a + sum_funcs b.
Proof.
  unfold sum_funcs. induction a as [| e a IH]; cbn [app List.map fold_right]; lia.
Qed.

Lemma sum_docs_app a b : sum_docs (a ++ b) = sum_docs a + sum_docs b.
Proof.
  unfold sum_docs. induction a as [| e a IH]; cbn [app List.map fold_right]; lia.
Qed.

(** X14.  The run only appends: when the visits of a sequence of entries
    have completed, so have the visits of every initial part of it, what was
    printed after that part is the beginning of what is printed at the end,
    and neither running total has decreased in between. *)
Theorem run_appends_only es1 es2 st st2 :
  for_each visit_entry (es1 ++ es2) st = Ok st2 ->
  exists st1,
    for_each visit_entry es1 st = Ok st1 /\
    for_each visit_entry es2 st1 = Ok st2 /\
    (exists more, stdout st2 = stdout st1 ++ more) /\
    total_funcs st1 <= total_funcs st2 /\
    total_documented st1 <= total_documented st2.
Proof.
  rewrite for_each_app. intro H.
  destruct (for_each visit_entry es1 st) as [st1 | x] eqn:E1; [| discriminate].
  cbn [bind] in H. exists st1. split; [reflexivity |]. split; [assumption |].
  rewrite for_each_visit_entry in H. injection H as <-.
  unfold after. cbn [stdout total_funcs total_documented].
  pose proof (sums_bounds (List.filter qualifies es2)).
  split; [| lia]. now eexists.
Qed.

(** X15.  Files whose name does not end in [.swift] are ignored, and so are
    the directories as such: two walks with the same qualifying entries, in
    the same order, end in the same state with the same output. *)
Theorem run_ignores_other_files w1 w2 :
  List.filter qualifies (entries w1) = List.filter qualifies (entries w2) ->
  run w1 = run w2.
Proof. intro H. rewrite !run_spec. cbv zeta. now rewrite H. Qed.

(** ** The walk *)

Lemma tree_induction (P : tree -> Prop) :
  (forall files subdirs,
      (forall name sub, In (name, sub) subdirs -> P sub) -> P (Dir files subdirs)) ->
  forall t, P t.
Proof.
  intro H. fix IH 1. intros [files subdirs]. apply H.
  induction subdirs as [| [n s] subdirs IHs]; intros name sub Hin.
  - destruct Hin.
  - destruct Hin as [E | Hin].
    + injection E as _ <-. apply IH.
    + eapply IHs; eassumption.
Qed.

Lemma entries_app a b : entries (a ++ b) = entries a ++ entries b.
Proof. unfold entries. apply flat_map_app. Qed.

Lemma In_entries_flat_map {A : Type} (g : A -> list (text * list text * list (text * text)))
      (f : text * text) (l : list A) :
  In f (List.map snd (entries (flat_map g l))) <->
  exists d, In d l /\ In f (List.map snd (entries (g d))).
Proof.
  induction l as [| d l IH]; simpl.
  - split; [tauto | intros (d & [] & _)].
  - rewrite entries_app, map_app, in_app_iff, IH. split.
    + intros [H | (d' & Hd & H)]; [exists d; auto | exists d'; auto].
    + intros (d' & [<- | Hd] & H); [now left | right; now exists d'].
Qed.

Lemma InTree_iff f files subdirs :
  InTree f (Dir files subdirs) <->
  In f files \/ exists name sub, In (name, sub) subdirs /\ InTree f sub.
Proof.
  split.
  - intro H. inversion H; subst; [now left | right; eauto].
  - intros [H | (name & sub & Hin & H)];
      [now apply InTree_here | eapply InTree_below; eassumption].
Qed.

(** X16.  The walk reaches every file of the tree, at any depth, and nothing
    else: the files of the visited entries are the files of the tree. *)
Theorem walk_reaches_all_files t : forall top f,
  In f (List.map snd (entries (walk top t))) <-> InTree f t.
Proof.
  induction t as [files subdirs IH] using tree_induction. intros top f.
  rewrite InTree_iff. cbn [walk].
  change (entries ((top, List.map fst subdirs, files) :: ?r))
    with (List.map (pair top) files ++ entries r).
  rewrite map_app, in_app_iff, map_map. cbn [snd]. rewrite map_id.
  rewrite In_entries_flat_map. split.
  - intros [H | ([name sub] & Hd & H)]; [now left | right].
    exists name, sub. split; [assumption |]. cbn [fst snd] in H.
    now apply (IH name sub Hd) in H.
  - intros [H | (name & sub & Hd & H)]; [now left | right].
    exists (name, sub). split; [assumption |]. cbn [fst snd].
    now apply (IH name sub Hd).
Qed.

End Analyzer.

(** * Closed instances *)

(** C1, as stated: [init (] is classified as a declaration, though [init] is
    not followed immediately by the parenthesis there. *)
Lemma init_space_paren_is_declaration :
  is_declaration ascii_only (str "init (") = true /\
  ~ declaration_strict ascii_only (str "init (").
Proof.
  split; [vm_compute; reflexivity |].
  intro H. apply declaration_strict_iff in H. vm_compute in H. discriminate.
Qed.


(** C6, as stated: with no file at all the output is not just the overall
    line; a blank line comes first. *)
Lemma empty_tree_output_has_blank_line :
  exists st, main ascii_only (Some (Dir [] [])) = Ok st /\
             stdout st <> str "Overall: 0/0 (0.0%)" /\
             stdout st <> str "Overall: 0/0 (0.0%)" ++ [LF].
Proof.
  eexists. split; [vm_compute; reflexivity |].
  split; vm_compute; discriminate.
Qed.

Lemma output_without_swift_files_witness :
  exists st, main ascii_only (Some tree_without_swift) = Ok st /\
             stdout st = LF :: str "Overall: 0/0 (0.0%)" ++ [LF].
Proof.
  apply (output_without_swift_files ascii_only (Some tree_without_swift)).
  intros e H. vm_compute in H.
  destruct H as [<- | [<- | []]]; reflexivity.
Defined.

(** A run of the whole program. *)
Example sample_run :
  exists st,
    main ascii_only (Some sample_tree) = Ok st /\
    stdout st =
      str "A.swift: 2/2 (100.0%)" ++ [LF] ++
      str "B.swift: 0/3 (0.0%)" ++ [LF] ++
      [LF] ++
      str "Overall: 2/5 (40.0%)" ++ [LF].
Proof. eexists. split; vm_compute; reflexivity. Qed.

Lemma declaration_ignores_trailing_witness :
  is_declaration ascii_only (str "func foo" ++ str "() -> Int {") = true.
Proof.
  apply (declaration_ignores_trailing ascii_only (str "func foo") (str "() -> Int {")).
  vm_compute. reflexivity.
Defined.

Lemma declaration_ignores_indentation_witness :
  is_declaration ascii_only (str "    " ++ str "private init() {}") =
  is_declaration ascii_only (str "private init() {}").
Proof.
  apply (declaration_ignores_indentation ascii_only (str "    ") (str "private init() {}")).
  reflexivity.
Defined.

Lemma declaration_first_letter_witness :
  is_declaration ascii_only (str "  " ++ 47%N :: str "// func documented()") = false.
Proof.
  apply (declaration_first_letter ascii_only (str "  ") 47%N (str "// func documented()"));
    [reflexivity | reflexivity | discriminate | discriminate | discriminate | discriminate].
Defined.

Lemma window_size_witness :
  List.length (prev_lines (repeat [LF] 12) 11) = 10%nat /\
  List.length (prev_lines (repeat [LF] 12) 3) = 3%nat.
Proof.
  split.
  - apply (window_size (repeat [LF] 12) 11). simpl. lia.
  - apply (window_size (repeat [LF] 12) 3). simpl. lia.
Defined.

Lemma has_doc_local_witness :
  has_doc [str "/// doc"; str "func a()"] 1 =
  has_doc [str "/// doc"; str "let a = 1"; str "func b()"] 1.
Proof.
  apply (has_doc_local [str "/// doc"; str "func a()"]
           [str "/// doc"; str "let a = 1"; str "func b()"] 1).
  - lia.
  - intros j Hj. assert (j = 0) as -> by lia. reflexivity.
Defined.

Lemma marker_documents_next_ten_witness :
  has_doc [str "/// doc"; str "func a()"; str "func b()"] 2 = true.
Proof.
  apply (marker_documents_next_ten
           [str "/// doc"; str "func a()"; str "func b()"] 0 (str "/// doc") 2).
  - lia.
  - reflexivity.
  - reflexivity.
  - lia.
Defined.

Lemma analyze_two_parts_exact_witness :
  analyze_lines ascii_only
    ([str "func a()" ++ [LF]] ++ [str "/// doc" ++ [LF]; str "func b()" ++ [LF]]) =
  (fst (analyze_lines ascii_only [str "func a()" ++ [LF]]) +
   fst (analyze_lines ascii_only [str "/// doc" ++ [LF]; str "func b()" ++ [LF]]),
   snd (analyze_lines ascii_only [str "func a()" ++ [LF]]) +
   snd (analyze_lines ascii_only [str "/// doc" ++ [LF]; str "func b()" ++ [LF]])).
Proof.
  apply (analyze_two_parts_exact ascii_only [str "func a()" ++ [LF]]
           [str "/// doc" ++ [LF]; str "func b()" ++ [LF]]).
  intros line H. vm_compute in H. destruct H as [<- | []]. reflexivity.
Defined.

Lemma documented_when_commented_witness :
  snd (analyze_lines ascii_only
         [str "/// a"; str "func a()"; str "/// b"; str "init()"]) =
  fst (analyze_lines ascii_only
         [str "/// a"; str "func a()"; str "/// b"; str "init()"]).
Proof.
  apply (documented_when_commented ascii_only
           [str "/// a"; str "func a()"; str "/// b"; str "init()"]).
  intros i Hi. vm_compute in Hi. destruct Hi as [<- | [<- | []]].
  - exists (str "/// a"). split; [lia |]. split; reflexivity.
  - exists (str "/// b"). split; [lia |]. split; reflexivity.
Defined.

Lemma no_marker_no_documented_witness :
  snd (analyze_file ascii_only
         (str "// plain comment" ++ [LF] ++ str "func a() {}" ++ [LF])) = 0.
Proof.
  apply (no_marker_no_documented ascii_only
           (str "// plain comment" ++ [LF] ++ str "func a() {}" ++ [LF])).
  reflexivity.
Defined.

Lemma run_appends_only_witness :
  exists st1,
    for_each (visit_entry ascii_only)
      [(str "/src", (str "A.swift", str "/// doc" ++ [LF] ++ str "func a() {}" ++ [LF]))]
      initial = Ok st1 /\
    for_each (visit_entry ascii_only)
      [(str "/src", (str "B.swift", str "init() {}" ++ [LF]))] st1 =
      Ok (mkState 2 1 (str "A.swift: 1/1 (100.0%)" ++ [LF] ++
                       str "B.swift: 0/1 (0.0%)" ++ [LF])) /\
    (exists more,
       str "A.swift: 1/1 (100.0%)" ++ [LF] ++ str "B.swift: 0/1 (0.0%)" ++ [LF] =
       stdout st1 ++ more) /\
    total_funcs st1 <= 2 /\
    total_documented st1 <= 1.
Proof.
  apply (run_appends_only ascii_only
           [(str "/src", (str "A.swift", str "/// doc" ++ [LF] ++ str "func a() {}" ++ [LF]))]
           [(str "/src", (str "B.swift", str "init() {}" ++ [LF]))]
           initial
           (mkState 2 1 (str "A.swift: 1/1 (100.0%)" ++ [LF] ++
                         str "B.swift: 0/1 (0.0%)" ++ [LF]))).
  vm_compute. reflexivity.
Defined.

Lemma run_ignores_other_files_witness :
  run ascii_only (scanned (Some sample_tree)) = run ascii_only sample_walk_swift_only.
Proof.
  apply (run_ignores_other_files ascii_only (scanned (Some sample_tree))
           sample_walk_swift_only).
  vm_compute. reflexivity.
Defined.
